(** * openrouter-relay: the relay handler of [src/index.ts]

    A shallow embedding of the Worker in [src/index.ts] and the properties
    its specification states about it.

    - JavaScript strings are sequences of UTF-16 code units ([list N]).
    - JavaScript values are an inductive type; objects are association
      lists kept in the property order of the language.
    - The platform's number conversions (text to double, double to text)
      are an interface, [NumberModel]; the program never computes with
      numbers, it only parses and prints them.
    - The handler is a function from the request, the environment and the
      behaviour of the upstream to a response and the trace of its effects.
    - The background copy task is a state-passing loop over the chunks the
      upstream delivers. *)

From Stdlib Require Import List NArith ZArith Bool Lia String Ascii.
From Stdlib Require Import DecimalN.
Import ListNotations.

Set Implicit Arguments.

(** ** Strings of code units *)

Module JSString.

Abbreviation code_unit := N (only parsing).
Abbreviation jsstring := (list N) (only parsing).

(** An ASCII literal as a JavaScript string. *)
Definition lit (s : string) : jsstring :=
  map N_of_ascii (list_ascii_of_string s).

Definition LF : code_unit := 10%N.
Definition DQUOTE : code_unit := 34%N.
Definition BACKSLASH : code_unit := 92%N.

Fixpoint eqb (a b : jsstring) : bool :=
  match a, b with
  | [], [] => true
  | x :: a', y :: b' => N.eqb x y && eqb a' b'
  | _, _ => false
  end.

(** [s.startsWith(p)] *)
Fixpoint startsWith (s p : jsstring) {struct p} : bool :=
  match p, s with
  | [], _ => true
  | x :: p', y :: s' => N.eqb x y && startsWith s' p'
  | _ :: _, [] => false
  end.

(** [s.indexOf(c)] for a one-unit needle; [None] is the source's [-1]. *)
Fixpoint indexOf (s : jsstring) (c : code_unit) : option nat :=
  match s with
  | [] => None
  | x :: s' => if N.eqb x c then Some 0
               else match indexOf s' c with
                    | Some i => Some (S i)
                    | None => None
                    end
  end.

(** [s.slice(0, n)] and [s.slice(n)] for [0 <= n]. *)
Definition slice_to (s : jsstring) (n : nat) : jsstring := firstn n s.
Definition slice_from (s : jsstring) (n : nat) : jsstring := skipn n s.

(** WhiteSpace and LineTerminator of ECMA-262, the units [trim] strips. *)
Definition is_trimmable (c : code_unit) : bool :=
  ((9 <=? c) && (c <=? 13) || N.eqb c 32 || N.eqb c 160
   || N.eqb c 5760 || (8192 <=? c) && (c <=? 8202)
   || N.eqb c 8232 || N.eqb c 8233 || N.eqb c 8239
   || N.eqb c 8287 || N.eqb c 12288 || N.eqb c 65279)%N.

Fixpoint trimStart (s : jsstring) : jsstring :=
  match s with
  | [] => []
  | c :: s' => if is_trimmable c then trimStart s' else s
  end.

Definition trimEnd (s : jsstring) : jsstring := rev (trimStart (rev s)).

Definition trim (s : jsstring) : jsstring := trimEnd (trimStart s).

(** Decimal digits of a natural number, as [String(i)] prints an index. *)
Fixpoint uint_units (d : Decimal.uint) : jsstring :=
  match d with
  | Decimal.Nil => []
  | Decimal.D0 d => 48%N :: uint_units d
  | Decimal.D1 d => 49%N :: uint_units d
  | Decimal.D2 d => 50%N :: uint_units d
  | Decimal.D3 d => 51%N :: uint_units d
  | Decimal.D4 d => 52%N :: uint_units d
  | Decimal.D5 d => 53%N :: uint_units d
  | Decimal.D6 d => 54%N :: uint_units d
  | Decimal.D7 d => 55%N :: uint_units d
  | Decimal.D8 d => 56%N :: uint_units d
  | Decimal.D9 d => 57%N :: uint_units d
  end.

Definition of_N (n : N) : jsstring := uint_units (N.to_uint n).

Definition is_digit (c : code_unit) : bool := ((48 <=? c) && (c <=? 57))%N.

(** The value of a string of decimal digits; [None] if a unit is no digit. *)
Fixpoint digits_value (acc : N) (s : jsstring) : option N :=
  match s with
  | [] => Some acc
  | c :: s' => if is_digit c then digits_value (10 * acc + (c - 48))%N s'
               else None
  end.

End JSString.

Import JSString.

(** ** Numbers of the platform

    The program parses number literals and prints numbers; it performs no
    arithmetic.  The two conversions of ECMA-262 (a literal to the nearest
    double, a double to its shortest decimal text) are taken as an
    interface. *)

Class NumberModel := {
  number : Type;
  (** StringToNumber on the text of a JSON number literal *)
  StringToNumber : jsstring -> number;
  (** Number::toString *)
  NumberToString : number -> jsstring;
  (** [false] on the infinities (and NaN) *)
  number_isFinite : number -> bool;
  (** ToBoolean: [false] on +0, -0 and NaN *)
  number_ToBoolean : number -> bool
}.

(** Integers, printed in decimal: doubles restricted to the integer
    literals of magnitude below 2^53, on which both conversions are exact. *)
Module IntegerNumbers.

Definition to_string (z : Z) : jsstring :=
  match z with
  | Z0 => [48%N]
  | Zpos p => of_N (Npos p)
  | Zneg p => 45%N :: of_N (Npos p)
  end.

Fixpoint leading_digits (acc : N) (s : jsstring) : N :=
  match s with
  | [] => acc
  | c :: s' => if is_digit c then leading_digits (10 * acc + (c - 48))%N s'
               else acc
  end.

Definition of_string (s : jsstring) : Z :=
  match s with
  | 45%N :: s' => Z.opp (Z.of_N (leading_digits 0 s'))
  | _ => Z.of_N (leading_digits 0 s)
  end.

#[export] Instance model : NumberModel := {|
  number := Z;
  StringToNumber := of_string;
  NumberToString := to_string;
  number_isFinite := fun _ => true;
  number_ToBoolean := fun z => negb (Z.eqb z 0)
|}.

End IntegerNumbers.

(** ** Values and objects *)

Section Values.

Context {NM : NumberModel}.

#[warnings="-register-all"]
Inductive value : Type :=
| VUndefined
| VNull
| VBool (b : bool)
| VNum (x : number)
| VStr (s : jsstring)
| VArr (elems : list value)
| VObj (props : list (jsstring * value)).

Definition properties := list (jsstring * value).

(** ToBoolean *)
Definition ToBoolean (v : value) : bool :=
  match v with
  | VUndefined | VNull => false
  | VBool b => b
  | VNum x => number_ToBoolean x
  | VStr s => match s with [] => false | _ => true end
  | VArr _ | VObj _ => true
  end.

(** [a || b] *)
Definition js_or (a b : value) : value := if ToBoolean a then a else b.

(** A property key that is an array index: the canonical decimal text of
    an integer below 2^32 - 1.  Such keys come first, in numeric order, in
    the property order of an object. *)
Definition array_index (k : jsstring) : option N :=
  match k with
  | [] => None
  | c :: k' =>
    if N.eqb c 48 && negb (match k' with [] => true | _ => false end) then None
    else match digits_value 0 k with
         | Some n => if (n <? 4294967295)%N then Some n else None
         | None => None
         end
  end.

Fixpoint obj_get (ps : properties) (k : jsstring) : option value :=
  match ps with
  | [] => None
  | (k', v) :: ps' => if eqb k' k then Some v else obj_get ps' k
  end.

Definition obj_has (ps : properties) (k : jsstring) : bool :=
  match obj_get ps k with Some _ => true | None => false end.

Fixpoint obj_update (ps : properties) (k : jsstring) (v : value) : properties :=
  match ps with
  | [] => []
  | (k', v') :: ps' =>
    if eqb k' k then (k', v) :: ps' else (k', v') :: obj_update ps' k v
  end.

Fixpoint obj_insert_index (ps : properties) (i : N) (k : jsstring) (v : value)
  : properties :=
  match ps with
  | [] => [(k, v)]
  | (k', v') :: ps' =>
    match array_index k' with
    | Some j => if (i <? j)%N then (k, v) :: ps
                else (k', v') :: obj_insert_index ps' i k v
    | None => (k, v) :: ps
    end
  end.

(** CreateDataProperty: an existing key keeps its place and takes the new
    value; a new key is placed by the property order. *)
Definition obj_define (ps : properties) (k : jsstring) (v : value) : properties :=
  if obj_has ps k then obj_update ps k v
  else match array_index k with
       | Some i => obj_insert_index ps i k v
       | None => ps ++ [(k, v)]
       end.

Definition obj_define_all (ps : properties) (kvs : properties) : properties :=
  fold_left (fun o kv => obj_define o (fst kv) (snd kv)) kvs ps.

(** The value read for key [k]: [undefined] when there is no such property. *)
Definition GetV (ps : properties) (k : jsstring) : value :=
  match obj_get ps k with Some v => v | None => VUndefined end.

Fixpoint indexed (i : N) (vs : list value) : properties :=
  match vs with
  | [] => []
  | v :: vs' => (of_N i, v) :: indexed (N.succ i) vs'
  end.

(** The own enumerable properties of [ToObject v]; [None] where the value
    is not object-coercible (destructuring it throws a TypeError). *)
Definition own_properties (v : value) : option properties :=
  match v with
  | VUndefined | VNull => None
  | VBool _ | VNum _ => Some []
  | VStr s => Some (indexed 0 (map (fun c => VStr [c]) s))
  | VArr l => Some (indexed 0 l)
  | VObj ps => Some ps
  end.

End Values.

(** ** JSON.stringify and JSON.parse (ECMA-262, 25.5) *)

Module JSON.

Section WithNumbers.

Context {NM : NumberModel}.

Definition hex_digit (n : N) : code_unit :=
  if (n <? 10)%N then (48 + n)%N else (87 + n)%N.

(** UnicodeEscape: [\uXXXX] with lower-case hexadecimal digits. *)
Definition unicode_escape (c : code_unit) : jsstring :=
  [BACKSLASH; 117%N;
   hex_digit (N.land (N.shiftr c 12) 15); hex_digit (N.land (N.shiftr c 8) 15);
   hex_digit (N.land (N.shiftr c 4) 15); hex_digit (N.land c 15)].

Definition is_high_surrogate (c : code_unit) : bool :=
  ((55296 <=? c) && (c <=? 56319))%N.
Definition is_low_surrogate (c : code_unit) : bool :=
  ((56320 <=? c) && (c <=? 57343))%N.

(** The text of one code unit that is not part of a surrogate pair. *)
Definition quote_unit (c : code_unit) : jsstring :=
  if N.eqb c 8 then [BACKSLASH; 98%N]
  else if N.eqb c 9 then [BACKSLASH; 116%N]
  else if N.eqb c 10 then [BACKSLASH; 110%N]
  else if N.eqb c 12 then [BACKSLASH; 102%N]
  else if N.eqb c 13 then [BACKSLASH; 114%N]
  else if N.eqb c DQUOTE then [BACKSLASH; DQUOTE]
  else if N.eqb c BACKSLASH then [BACKSLASH; BACKSLASH]
  else if (c <? 32)%N || is_high_surrogate c || is_low_surrogate c
       then unicode_escape c
  else [c].

Fixpoint quote_units (s : jsstring) : jsstring :=
  match s with
  | [] => []
  | c :: s' =>
    if is_high_surrogate c then
      match s' with
      | d :: s'' => if is_low_surrogate d then c :: d :: quote_units s''
                    else quote_unit c ++ quote_units s'
      | [] => quote_unit c
      end
    else quote_unit c ++ quote_units s'
  end.

(** QuoteJSONString *)
Definition quote (s : jsstring) : jsstring :=
  DQUOTE :: quote_units s ++ [DQUOTE].

Fixpoint join (sep : jsstring) (parts : list jsstring) : jsstring :=
  match parts with
  | [] => []
  | [p] => p
  | p :: ps => p ++ sep ++ join sep ps
  end.

Definition omit_none (l : list (option jsstring)) : list jsstring :=
  flat_map (fun o => match o with Some s => [s] | None => [] end) l.

(** SerializeJSONProperty, without replacer or indentation; [None] is the
    [undefined] result (the property is then left out of an object, and
    printed as [null] in an array). *)
Fixpoint serialize (v : value) : option jsstring :=
  match v with
  | VUndefined => None
  | VNull => Some (lit "null")
  | VBool true => Some (lit "true")
  | VBool false => Some (lit "false")
  | VNum x => Some (if number_isFinite x then NumberToString x else lit "null")
  | VStr s => Some (quote s)
  | VArr l =>
    Some (91%N ::
          join [44%N]
            (map (fun e => match serialize e with
                           | Some t => t
                           | None => lit "null"
                           end) l)
          ++ [93%N])
  | VObj ps =>
    Some (123%N ::
          join [44%N]
            (omit_none
               (map (fun kv => match serialize (snd kv) with
                               | Some t => Some (quote (fst kv) ++ 58%N :: t)
                               | None => None
                               end) ps))
          ++ [125%N])
  end.

(** [JSON.stringify(v)] *)
Definition stringify (v : value) : option jsstring := serialize v.

(** *** Parsing *)

Inductive parse_result (A : Type) : Type :=
| Parsed (a : A) (rest : jsstring)
| SyntaxError
| OutOfFuel.

Arguments SyntaxError {A}.
Arguments OutOfFuel {A}.

(** The white space of the JSON grammar: tab, line feed, carriage return,
    space. *)
Definition is_ws (c : code_unit) : bool :=
  N.eqb c 9 || N.eqb c 10 || N.eqb c 13 || N.eqb c 32.

Fixpoint skip_ws (s : jsstring) : jsstring :=
  match s with
  | [] => []
  | c :: s' => if is_ws c then skip_ws s' else s
  end.

Definition hex_value (c : code_unit) : option N :=
  if is_digit c then Some (c - 48)%N
  else if ((97 <=? c) && (c <=? 102))%N then Some (c - 87)%N
  else if ((65 <=? c) && (c <=? 70))%N then Some (c - 55)%N
  else None.

Definition hex4 (a b c d : code_unit) : option code_unit :=
  match hex_value a, hex_value b, hex_value c, hex_value d with
  | Some x, Some y, Some z, Some w => Some (4096 * x + 256 * y + 16 * z + w)%N
  | _, _, _, _ => None
  end.

(** The unit a single-character escape stands for. *)
Definition simple_escape (e : code_unit) : option code_unit :=
  if N.eqb e DQUOTE then Some DQUOTE
  else if N.eqb e BACKSLASH then Some BACKSLASH
  else if N.eqb e 47 then Some 47%N
  else if N.eqb e 98 then Some 8%N
  else if N.eqb e 102 then Some 12%N
  else if N.eqb e 110 then Some 10%N
  else if N.eqb e 114 then Some 13%N
  else if N.eqb e 116 then Some 9%N
  else None.

Definition cons_unit (c : code_unit) (r : option (jsstring * jsstring))
  : option (jsstring * jsstring) :=
  match r with
  | Some (t, rest) => Some (c :: t, rest)
  | None => None
  end.

(** The characters of a string literal, after the opening quote, up to and
    including the closing quote. *)
Fixpoint parse_chars (s : jsstring) : option (jsstring * jsstring) :=
  match s with
  | [] => None
  | c :: s' =>
    if N.eqb c DQUOTE then Some ([], s')
    else if N.eqb c BACKSLASH then
      match s' with
      | [] => None
      | e :: s'' =>
        if N.eqb e 117 then
          match s'' with
          | h1 :: h2 :: h3 :: h4 :: s4 =>
            match hex4 h1 h2 h3 h4 with
            | Some u => cons_unit u (parse_chars s4)
            | None => None
            end
          | _ => None
          end
        else match simple_escape e with
             | Some u => cons_unit u (parse_chars s'')
             | None => None
             end
      end
    else if (c <? 32)%N then None
    else cons_unit c (parse_chars s')
  end.

(** The rest of [s] after the unit [c], where [s] starts with it. *)
Definition accept (c : code_unit) (s : jsstring) : option jsstring :=
  match s with
  | x :: r => if N.eqb x c then Some r else None
  | [] => None
  end.

Fixpoint span_digits (s : jsstring) : jsstring * jsstring :=
  match s with
  | [] => ([], [])
  | c :: s' => if is_digit c
               then let (d, r) := span_digits s' in (c :: d, r)
               else ([], s)
  end.

(** One digit at least. *)
Definition lex_digits (s : jsstring) : option (jsstring * jsstring) :=
  match span_digits s with
  | ([], _) => None
  | (d, r) => Some (d, r)
  end.

(** The integer part of a number literal: [0], or a non-zero digit and
    further digits. *)
Definition lex_int (s : jsstring) : option (jsstring * jsstring) :=
  match s with
  | c :: s' =>
    if N.eqb c 48 then Some ([c], s')
    else if is_digit c then let (d, r) := span_digits s' in Some (c :: d, r)
    else None
  | [] => None
  end.

Definition lex_frac (s : jsstring) : option (jsstring * jsstring) :=
  match accept 46%N s with
  | Some s' =>
    match lex_digits s' with
    | Some (d, r) => Some (46%N :: d, r)
    | None => None
    end
  | None => Some ([], s)
  end.

Definition is_exp_mark (c : code_unit) : bool := N.eqb c 101 || N.eqb c 69.
Definition is_sign (c : code_unit) : bool := N.eqb c 43 || N.eqb c 45.

Definition lex_sign (s : jsstring) : jsstring * jsstring :=
  match s with
  | g :: s' => if is_sign g then ([g], s') else ([], s)
  | [] => ([], [])
  end.

Definition lex_exp (s : jsstring) : option (jsstring * jsstring) :=
  match s with
  | c :: s' =>
    if is_exp_mark c then
      let (sign, s1) := lex_sign s' in
      match lex_digits s1 with
      | Some (d, r) => Some (c :: sign ++ d, r)
      | None => None
      end
    else Some ([], s)
  | [] => Some ([], s)
  end.

Definition lex_minus (s : jsstring) : jsstring * jsstring :=
  match accept 45%N s with
  | Some s' => ([45%N], s')
  | None => ([], s)
  end.

(** The text of a number literal at the head of [s], and what follows. *)
Definition lex_number (s : jsstring) : option (jsstring * jsstring) :=
  let (minus, s0) := lex_minus s in
  match lex_int s0 with
  | None => None
  | Some (i, s1) =>
    match lex_frac s1 with
    | None => None
    | Some (f, s2) =>
      match lex_exp s2 with
      | None => None
      | Some (e, s3) => Some (minus ++ i ++ f ++ e, s3)
      end
    end
  end.

Definition expect (word : jsstring) (v : value) (s : jsstring)
  : parse_result value :=
  if startsWith s word then Parsed v (skipn (List.length word) s) else SyntaxError.

(** A value that is neither an object nor an array. *)
Definition parse_scalar (c : code_unit) (s' : jsstring) : parse_result value :=
  if N.eqb c DQUOTE then
    match parse_chars s' with
    | Some (t, r) => Parsed (VStr t) r
    | None => SyntaxError
    end
  else if N.eqb c 116 then expect (lit "true") (VBool true) (c :: s')
  else if N.eqb c 102 then expect (lit "false") (VBool false) (c :: s')
  else if N.eqb c 110 then expect (lit "null") VNull (c :: s')
  else match lex_number (c :: s') with
       | Some (t, r) => Parsed (VNum (StringToNumber t)) r
       | None => SyntaxError
       end.

(** The key of a member and the colon after it. *)
Definition parse_key (s : jsstring) : option (jsstring * jsstring) :=
  match accept DQUOTE (skip_ws s) with
  | Some s1 =>
    match parse_chars s1 with
    | Some (k, s2) =>
      match accept 58%N (skip_ws s2) with
      | Some s3 => Some (k, s3)
      | None => None
      end
    | None => None
    end
  | None => None
  end.

Fixpoint parse_value (fuel : nat) (s : jsstring) {struct fuel}
  : parse_result value :=
  match fuel with
  | O => OutOfFuel
  | S f =>
    match skip_ws s with
    | [] => SyntaxError
    | c :: s' =>
      if N.eqb c 123 then
        match accept 125%N (skip_ws s') with
        | Some r => Parsed (VObj []) r
        | None =>
          match parse_members f s' with
          | Parsed ms r => Parsed (VObj (obj_define_all [] ms)) r
          | SyntaxError => SyntaxError
          | OutOfFuel => OutOfFuel
          end
        end
      else if N.eqb c 91 then
        match accept 93%N (skip_ws s') with
        | Some r => Parsed (VArr []) r
        | None =>
          match parse_elements f s' with
          | Parsed vs r => Parsed (VArr vs) r
          | SyntaxError => SyntaxError
          | OutOfFuel => OutOfFuel
          end
        end
      else parse_scalar c s'
    end
  end

with parse_elements (fuel : nat) (s : jsstring) {struct fuel}
  : parse_result (list value) :=
  match fuel with
  | O => OutOfFuel
  | S f =>
    match parse_value f s with
    | Parsed v r =>
      match accept 44%N (skip_ws r) with
      | Some r' =>
        match parse_elements f r' with
        | Parsed vs r'' => Parsed (v :: vs) r''
        | SyntaxError => SyntaxError
        | OutOfFuel => OutOfFuel
        end
      | None =>
        match accept 93%N (skip_ws r) with
        | Some r' => Parsed [v] r'
        | None => SyntaxError
        end
      end
    | SyntaxError => SyntaxError
    | OutOfFuel => OutOfFuel
    end
  end

with parse_members (fuel : nat) (s : jsstring) {struct fuel}
  : parse_result (list (jsstring * value)) :=
  match fuel with
  | O => OutOfFuel
  | S f =>
    match parse_key s with
    | None => SyntaxError
    | Some (k, s3) =>
      match parse_value f s3 with
      | Parsed v r =>
        match accept 44%N (skip_ws r) with
        | Some r' =>
          match parse_members f r' with
          | Parsed ms r'' => Parsed ((k, v) :: ms) r''
          | SyntaxError => SyntaxError
          | OutOfFuel => OutOfFuel
          end
        | None =>
          match accept 125%N (skip_ws r) with
          | Some r' => Parsed [(k, v)] r'
          | None => SyntaxError
          end
        end
      | SyntaxError => SyntaxError
      | OutOfFuel => OutOfFuel
      end
    end
  end.

(** Fuel that every text is parsed within (see [parse_text_total]). *)
Definition enough_fuel (s : jsstring) : nat := 2 * List.length s + 1.

Definition parse_text (s : jsstring) : parse_result value :=
  match parse_value (enough_fuel s) s with
  | Parsed v r => match skip_ws r with
                  | [] => Parsed v []
                  | _ => SyntaxError
                  end
  | SyntaxError => SyntaxError
  | OutOfFuel => OutOfFuel
  end.

(** [JSON.parse(text)]: the value, or [None] where it throws a
    SyntaxError. *)
Definition parse (s : jsstring) : option value :=
  match parse_text s with
  | Parsed v _ => Some v
  | _ => None
  end.

(** *** Values in the form [stringify] prints them from *)

(** What may follow a value in a text: nothing, or a comma, a closing
    bracket or a closing brace. *)
Definition delimited (rest : jsstring) : bool :=
  match rest with
  | [] => true
  | c :: _ => N.eqb c 44 || N.eqb c 93 || N.eqb c 125
  end.

Definition all_units (s : jsstring) : bool :=
  forallb (fun c => (c <? 65536)%N) s.

(** A key may be defined after the properties [pre] without moving: it is
    new, and no property before it comes later in the property order. *)
Definition appendable (pre : properties) (k : jsstring) : bool :=
  negb (obj_has pre k)
  && match array_index k with
     | None => true
     | Some i =>
       forallb (fun kv => match array_index (fst kv) with
                          | Some j => (j <? i)%N
                          | None => false
                          end) pre
     end.

(** Properties with distinct keys, in the property order of an object. *)
Fixpoint in_property_order (pre ps : properties) : bool :=
  match ps with
  | [] => true
  | (k, v) :: ps' =>
    appendable pre k && in_property_order (pre ++ [(k, v)]) ps'
  end.

(** A finite number that the platform prints as a number literal and reads
    back from it. *)
Definition number_canonical (x : number) : Prop :=
  number_isFinite x = true /\
  lex_number (NumberToString x) = Some (NumberToString x, []) /\
  StringToNumber (NumberToString x) = x.

(** The values [JSON.parse] can give back as they were: no [undefined],
    numbers as above, strings of 16-bit units, objects with their
    properties in order. *)
Fixpoint canonical (v : value) : Prop :=
  match v with
  | VUndefined => False
  | VNull | VBool _ => True
  | VNum x => number_canonical x
  | VStr s => all_units s = true
  | VArr l =>
    (fix all (l : list value) : Prop :=
       match l with
       | [] => True
       | e :: l' => canonical e /\ all l'
       end) l
  | VObj ps =>
    in_property_order [] ps = true /\
    (fix all (ps : list (jsstring * value)) : Prop :=
       match ps with
       | [] => True
       | kv :: ps' =>
         all_units (fst kv) = true /\ canonical (snd kv) /\ all ps'
       end) ps
  end.

(** The text of an element of an array, and of a member of an object. *)
Definition element_text (e : value) : jsstring :=
  match serialize e with Some t => t | None => lit "null" end.

Definition member_text (kv : jsstring * value) : option jsstring :=
  match serialize (snd kv) with
  | Some t => Some (quote (fst kv) ++ 58%N :: t)
  | None => None
  end.

(** [v] is printed as a text, starting with neither white space nor a
    closing bracket, that is read back as [v] before any delimiter. *)
Definition reads_back (v : value) : Prop :=
  exists t c t',
    serialize v = Some t /\ t = c :: t' /\
    is_ws c = false /\ N.eqb c 93 = false /\
    forall rest, delimited rest = true ->
                 exists f, parse_value f (t ++ rest) = Parsed v rest.

End WithNumbers.

Arguments SyntaxError {A}.
Arguments OutOfFuel {A}.

End JSON.

(** ** The relay *)

Module Relay.

(** Errors the platform or the program raises. *)
Inductive error : Type :=
| JSONSyntaxError                (* JSON.parse, request.json() *)
| TypeError
| RangeError
| Error (message : string)       (* new Error(message) *)
| TransportError (code : N).     (* a rejected read, write or fetch *)

Inductive log_arg : Type :=
| AText (s : jsstring)
| AError (e : error).

(** What the handler does to the world, in order. *)
Inductive event : Type :=
| ConsoleLog (args : list log_arg)
| ConsoleError (args : list log_arg)
| ReadCredential                                   (* env.OPENROUTER_API_KEY *)
| ReadRequestJson                                  (* request.json() *)
| Fetch (url : jsstring) (method : jsstring)
        (headers : list (jsstring * jsstring)) (body : option jsstring)
| ReadResponseText                                 (* response.text() *)
| WaitUntil.                                       (* ctx.waitUntil(...) *)

(** The outbound calls of a trace. *)
Definition is_fetch (e : event) : bool :=
  match e with
  | Fetch _ _ _ _ => true
  | _ => false
  end.

Definition upstream_calls (tr : list event) : list event := filter is_fetch tr.

(** A body: the text chunks it delivers and how it ends. *)
Inductive ending : Type :=
| Done
| Failed (e : error).

Record Body : Type := { chunks : list jsstring; end_of_body : ending }.

Record Response : Type := {
  status : N;
  headers : list (jsstring * jsstring);
  body : option Body
}.

Record Request : Type := {
  method : jsstring;
  origin : option jsstring;      (* request.headers.get("origin") *)
  request_text : jsstring        (* the text of the request body *)
}.

Record Env : Type := { OPENROUTER_API_KEY : option jsstring }.

Inductive fetch_outcome : Type :=
| Resolves (r : Response)
| Rejects (e : error).

Inductive outcome : Type :=
| Returns (r : Response)
| Throws (e : error).

Inductive writer_status : Type :=
| Open
| Errored (e : error)
| Closed
| Aborted (e : error).

Section WithPlatform.

Context {NM : NumberModel}.

(** The upstream: what the platform's [fetch] answers to a call. *)
Variable upstream :
  jsstring -> jsstring -> list (jsstring * jsstring) -> option jsstring ->
  fetch_outcome.

(** The client: [Some k] takes [k] chunks and then cancels the readable
    side (further writes reject, and so does closing); [None] reads to the
    end. *)
Variable client : option nat.

Definition DEBUG : bool := false.
Definition MODEL : jsstring := lit "google/gemini-2.0-pro-exp-02-05:free".
Definition OPENROUTER_URL : jsstring :=
  lit "https://openrouter.ai/api/v1/chat/completions".

Definition owrLog (args : list log_arg) : list event :=
  if DEBUG then [ConsoleLog (AText (lit "[owr]") :: args)] else [].

Definition owrError (args : list log_arg) : event :=
  ConsoleError (AText (lit "[owr error]") :: args).

(** [!s] for a string that may be undefined. *)
Definition falsy (s : option jsstring) : bool :=
  match s with
  | None | Some [] => true
  | Some _ => false
  end.

(** [response.ok] *)
Definition ok (r : Response) : bool :=
  ((200 <=? status r) && (status r <=? 299))%N.

(** [response.text()]: the whole body, or the error its stream ends in. *)
Definition text (r : Response) : jsstring + error :=
  match body r with
  | None => inl []
  | Some b => match end_of_body b with
              | Done => inl (List.concat (chunks b))
              | Failed e => inr e
              end
  end.

(** [request.json()] *)
Definition json (request : Request) : option value :=
  JSON.parse (request_text request).

Definition null_body_status (s : N) : bool :=
  N.eqb s 101 || N.eqb s 103 || N.eqb s 204 || N.eqb s 205 || N.eqb s 304.

(** [new Response(body, { status, headers })] with a body that is not null:
    the constructor of the Fetch standard throws a RangeError for a status
    outside 200..599 and a TypeError for a null-body status. *)
Definition new_Response (b : Body) (s : N)
  (h : list (jsstring * jsstring)) : Response + error :=
  if (s <? 200)%N || (599 <? s)%N then inr RangeError
  else if null_body_status s then inr TypeError
  else inl {| status := s; headers := h; body := Some b |}.

Definition text_body (s : jsstring) : Body :=
  {| chunks := [s]; end_of_body := Done |}.

(** Lines 62-68: the destructuring of the request body and the payload
    literal.  [None] is the TypeError of destructuring [null]. *)
Definition restOfBody (ps : properties) : properties :=
  filter (fun kv => negb (eqb (fst kv) (lit "messages"))
                    && negb (eqb (fst kv) (lit "model"))) ps.

Definition buildPayload (requestBody : value) : option properties :=
  match own_properties requestBody with
  | None => None
  | Some ps =>
    let messages := GetV ps (lit "messages") in
    let requestModel := GetV ps (lit "model") in
    let payload := obj_define [] (lit "model") (js_or requestModel (VStr MODEL)) in
    let payload := obj_define payload (lit "messages") messages in
    let payload := obj_define payload (lit "stream") (VBool true) in
    Some (obj_define_all payload (restOfBody ps))
  end.

(** *** The background copy task (lines 99-141) *)

Record relay_state : Type := {
  buffer : jsstring;
  written : list jsstring;        (* chunks given to the writer, in order *)
  console : list event;           (* diagnostics of the task, in order *)
  writer : writer_status
}.

Definition initial : relay_state :=
  {| buffer := []; written := []; console := []; writer := Open |}.

Definition set_buffer (st : relay_state) (b : jsstring) : relay_state :=
  {| buffer := b; written := written st; console := console st;
     writer := writer st |}.

Definition log (st : relay_state) (e : event) : relay_state :=
  {| buffer := buffer st; written := written st;
     console := console st ++ [e]; writer := writer st |}.

Definition set_writer (st : relay_state) (w : writer_status) : relay_state :=
  {| buffer := buffer st; written := written st; console := console st;
     writer := w |}.

Definition client_reads (n : nat) : bool :=
  match client with
  | None => true
  | Some k => Nat.ltb n k
  end.

(** The error a write rejects with once the client has gone. *)
Definition client_gone : error := TransportError 0.

(** [await writer.write(chunk)] *)
Definition write (st : relay_state) (chunk : jsstring) : relay_state + (relay_state * error) :=
  match writer st with
  | Open =>
    if client_reads (List.length (written st))
    then inl {| buffer := buffer st; written := written st ++ [chunk];
                console := console st; writer := Open |}
    else inr (set_writer st (Errored client_gone), client_gone)
  | Errored e => inr (st, e)
  | Closed => inr (st, TypeError)
  | Aborted e => inr (st, e)
  end.

(** The SSE framing of one event: [data: <json>\n\n]. *)
Definition frame (json_text : jsstring) : jsstring :=
  lit "data: " ++ json_text ++ [LF; LF].

(** Lines 121-134: the body of the line loop for one trimmed line. *)
Definition forward (line : jsstring) (st : relay_state) : relay_state :=
  if startsWith line (lit "data: ") then
    let data := slice_from line 6 in
    if eqb data (lit "[DONE]") then st
    else
      match JSON.parse data with
      | Some parsed =>
        let t := match JSON.stringify parsed with
                 | Some t => t
                 | None => lit "undefined"
                 end in
        match write st (frame t) with
        | inl st' => st'
        | inr (st', e) =>
          log st' (owrError [AText (lit "Error parsing SSE data"); AError e])
        end
      | None =>
        log st (owrError [AText (lit "Error parsing SSE data");
                          AError JSONSyntaxError])
      end
  else st.

(** Lines 117-135: while the buffer holds a line feed, take the line before
    it.  Every turn shortens the buffer, so its length is fuel enough (see
    [drain_complete]). *)
Fixpoint drain (fuel : nat) (st : relay_state) : relay_state :=
  match fuel with
  | O => st
  | S f =>
    match indexOf (buffer st) LF with
    | None => st
    | Some lineEnd =>
      let line := trim (slice_to (buffer st) lineEnd) in
      let st' := set_buffer st (slice_from (buffer st) (lineEnd + 1)) in
      drain f (forward line st')
    end
  end.

(** Lines 113-135: one chunk read from the upstream. *)
Definition receive (st : relay_state) (chunk : jsstring) : relay_state :=
  let st' := set_buffer st (buffer st ++ chunk) in
  drain (List.length (buffer st')) st'.

(** The handler of the outer [catch] (lines 137-140). *)
Definition abort (st : relay_state) (e : error) : relay_state :=
  set_writer
    (log st (owrError [AText (lit "Error processing stream"); AError e]))
    (Aborted e).

(** [await writer.close()] in the [done] branch.  The client's cancel
    errors the writer at once, whether or not a write has met the rejection
    since, and closing a writer that is errored (or no longer open) rejects
    with a TypeError, which the outer [catch] handles. *)
Definition close (st : relay_state) : relay_state :=
  match writer st with
  | Open =>
    if client_reads (List.length (written st)) then set_writer st Closed
    else abort st TypeError
  | Errored _ | Closed | Aborted _ => abort st TypeError
  end.

Definition feed (cs : list jsstring) (st : relay_state) : relay_state :=
  fold_left receive cs st.

Definition processStream (upstream_body : Body) : relay_state :=
  let st := feed (chunks upstream_body) initial in
  match end_of_body upstream_body with
  | Done => close st
  | Failed e => abort st e
  end.

(** What the readable side of the transform stream delivers. *)
Definition readable (st : relay_state) : Body :=
  {| chunks := written st;
     end_of_body := match writer st with
                    | Closed | Open => Done
                    | Errored e | Aborted e => Failed e
                    end |}.

(** *** The handler (lines 38-158) *)

Record result : Type := { trace : list event; answer : outcome }.

Definition respond (tr : list event) (b : Body) (s : N)
  (h : list (jsstring * jsstring)) : result :=
  {| trace := tr;
     answer := match new_Response b s h with
               | inl r => Returns r
               | inr e => Throws e
               end |}.

(** The [catch] of lines 154-157. *)
Definition request_failed (tr : list event) (e : error) : result :=
  respond
    (tr ++ [owrError [AText (lit "Error making request to OpenRouter");
                      AError e]])
    (text_body (lit "Error making request to OpenRouter")) 500 [].

Definition missing_key_message : jsstring :=
  lit "Missing OpenRouter API key. Did you forget to set OPENROUTER_API_KEY in .dev.vars (for local dev) or with wrangler secret put OPENROUTER_API_KEY (for production)?".

Definition sse_headers : list (jsstring * jsstring) :=
  [(lit "Content-Type", lit "text/event-stream");
   (lit "Cache-Control", lit "no-cache");
   (lit "Connection", lit "keep-alive")].

(** A string that may be undefined, in a template literal. *)
Definition ToString (s : option jsstring) : jsstring :=
  match s with
  | Some t => t
  | None => lit "undefined"
  end.

Definition upstream_headers (apiKey : jsstring) (request : Request)
  : list (jsstring * jsstring) :=
  [(lit "Authorization", lit "Bearer " ++ apiKey);
   (lit "Content-Type", lit "application/json");
   (lit "HTTP-Referer",
    if falsy (origin request) then lit "https://localhost"
    else ToString (origin request));
   (lit "X-Title", lit "OpenRouter Relay")].

Definition handleStream (request : Request) (env : Env) : result :=
  let apiKey := OPENROUTER_API_KEY env in
  if falsy apiKey then
    respond [ReadCredential; owrError [AText missing_key_message]]
      (text_body (lit "Missing API key")) 401 []
  else
    match json request with
    | None =>
      respond
        [ReadCredential; ReadRequestJson;
         owrError [AText (lit "Error parsing request body");
                   AError JSONSyntaxError]]
        (text_body (lit "Invalid request body")) 400 []
    | Some requestBody =>
      match buildPayload requestBody with
      | None =>
        {| trace := [ReadCredential; ReadRequestJson];
           answer := Throws TypeError |}
      | Some payload =>
        let h := upstream_headers (ToString apiKey) request in
        let b := JSON.stringify (VObj payload) in
        let tr := [ReadCredential; ReadRequestJson;
                   Fetch OPENROUTER_URL (lit "POST") h b] in
        match upstream OPENROUTER_URL (lit "POST") h b with
        | Rejects e => request_failed tr e
        | Resolves response =>
          if negb (ok response) then
            match text response with
            | inr e => request_failed (tr ++ [ReadResponseText]) e
            | inl error_text =>
              let tr' :=
                tr ++ [ReadResponseText;
                       owrError [AText (lit "OpenRouter API error");
                                 AText error_text]] in
              match new_Response
                      (text_body (lit "OpenRouter API error: " ++ error_text))
                      (status response) [] with
              | inl r => {| trace := tr'; answer := Returns r |}
              | inr e => request_failed tr' e
              end
            end
          else
            match body response with
            | None => request_failed tr (Error "No response body")
            | Some upstream_body =>
              let st := processStream upstream_body in
              respond (tr ++ WaitUntil :: console st) (readable st) 200
                sse_headers
            end
        end
      end
    end.

(** The exported [fetch] handler (lines 160-173). *)
Definition fetch (request : Request) (env : Env) : result :=
  if negb (eqb (method request) (lit "POST")) then
    respond [] (text_body (lit "Method not allowed")) 405 []
  else handleStream request env.

End WithPlatform.

End Relay.

Import Relay.

(** ** The relay, line by line

    What the specification says of the copy task, as functions of the text
    received: its complete lines, and what each line contributes.  The
    properties below compare the loop of [processStream] with them. *)

Module Lines.

(** Lines, each closed by a line feed. *)
Definition unlines (ls : list jsstring) : jsstring :=
  flat_map (fun l => l ++ [LF]) ls.

(** The complete lines of a text and the unfinished rest after the last
    line feed. *)
Fixpoint lines_of (s : jsstring) : list jsstring * jsstring :=
  match s with
  | [] => ([], [])
  | c :: s' =>
    let (ls, r) := lines_of s' in
    if N.eqb c LF then ([] :: ls, r)
    else match ls with
         | [] => ([], c :: r)
         | l :: ls' => ((c :: l) :: ls', r)
         end
  end.

Section WithNumbers.

Context {NM : NumberModel}.

(** The data of a line: what follows [data: ] once the line is trimmed. *)
Definition data_of (line : jsstring) : option jsstring :=
  if startsWith (trim line) (lit "data: ")
  then Some (slice_from (trim line) 6)
  else None.

Definition is_sentinel (line : jsstring) : bool :=
  match data_of line with
  | Some data => eqb data (lit "[DONE]")
  | None => false
  end.

(** A data line that is not the sentinel and whose data is not JSON. *)
Definition is_malformed (line : jsstring) : bool :=
  match data_of line with
  | Some data =>
    negb (eqb data (lit "[DONE]"))
    && match JSON.parse data with Some _ => false | None => true end
  | None => false
  end.

Definition reserialize (data : jsstring) : option jsstring :=
  match JSON.parse data with
  | Some parsed => Some (match JSON.stringify parsed with
                         | Some t => t
                         | None => lit "undefined"
                         end)
  | None => None
  end.

(** The events a line is forwarded as: one framed event for a data line
    with JSON data, nothing otherwise. *)
Definition forwarded (line : jsstring) : list jsstring :=
  match data_of line with
  | Some data =>
    if eqb data (lit "[DONE]") then []
    else match reserialize data with
         | Some t => [frame t]
         | None => []
         end
  | None => []
  end.

(** [console.error("[owr error]", "Error parsing SSE data", e)] for the
    SyntaxError of [JSON.parse]. *)
Definition parse_diagnostic : event :=
  ConsoleError [AText (lit "[owr error]"); AText (lit "Error parsing SSE data");
                AError JSONSyntaxError].

(** The diagnostics of a line, while the client reads. *)
Definition diagnostics (line : jsstring) : list event :=
  if is_malformed line then [parse_diagnostic] else [].

(** The line loop without its buffer: the lines in order, each trimmed and
    given to [forward]. *)
Definition run_lines (client : option nat) (ls : list jsstring)
  (st : relay_state) : relay_state :=
  fold_left (fun st l => forward client (trim l) st) ls st.

(** What a client that stops after [k] chunks takes of a sequence. *)
Definition taken (client : option nat) (evs : list jsstring) : list jsstring :=
  match client with
  | None => evs
  | Some k => firstn k evs
  end.

(** The writer agrees with the client: it is open while the client reads,
    and errored once the client has taken its [k] chunks and refused one. *)
Definition tracks (client : option nat) (st : relay_state) : Prop :=
  match client with
  | None => writer st = Open
  | Some k =>
    List.length (written st) <= k /\
    (writer st = Open \/
     (exists e, writer st = Errored e) /\ List.length (written st) = k)
  end.

End WithNumbers.

End Lines.

Import Lines.

(** ** Further behaviour of the handler and of the copy task *)

Module Behaviour.

Definition CR : code_unit := 13%N.

(** The answer of the [catch] of lines 154-157. *)
Definition internal_error : Response :=
  {| status := 500; headers := [];
     body := Some (text_body (lit "Error making request to OpenRouter")) |}.

Definition request_diagnostic (e : error) : event :=
  ConsoleError [AText (lit "[owr error]");
                AText (lit "Error making request to OpenRouter"); AError e].

(** The diagnostic of the [catch] of lines 131-133 for a rejected write. *)
Definition write_diagnostic : event :=
  ConsoleError [AText (lit "[owr error]"); AText (lit "Error parsing SSE data");
                AError client_gone].

(** An outbound call without its [Authorization] header. *)
Definition without_authorization (e : event) : event :=
  match e with
  | Fetch u m h b =>
    Fetch u m (filter (fun nv => negb (eqb (fst nv) (lit "Authorization"))) h) b
  | _ => e
  end.

(** The statuses the handler writes itself. *)
Definition own_status (s : N) : bool :=
  N.eqb s 200 || N.eqb s 400 || N.eqb s 401 || N.eqb s 405 || N.eqb s 500.

Section WithNumbers.

Context {NM : NumberModel}.

(** A line the loop passes over without a word: no data line, or the
    sentinel. *)
Definition is_silent (line : jsstring) : bool :=
  match data_of line with
  | None => true
  | Some data => eqb data (lit "[DONE]")
  end.

(** The diagnostics of a line once the client has gone: the write of its
    event is rejected and logged by the [catch] meant for parse errors. *)
Definition diagnostics_unread (line : jsstring) : list event :=
  if is_malformed line then [parse_diagnostic]
  else map (fun _ => write_diagnostic) (forwarded line).

(** The payload of a body without properties of its own. *)
Definition default_payload : properties :=
  [(lit "model", VStr MODEL); (lit "messages", VUndefined);
   (lit "stream", VBool true)].

End WithNumbers.

End Behaviour.

Import Behaviour.

(** ** Inputs the properties are stated and run on *)

Module Examples.

(** A word between double quotes. *)
Definition q (s : string) : jsstring := DQUOTE :: lit s ++ [DQUOTE].

(** [{"messages":[],"stream":false}] *)
Definition body_stream_false : jsstring :=
  lit "{" ++ q "messages" ++ lit ":[]," ++ q "stream" ++ lit ":false}".

(** [{"messages":[]}] *)
Definition body_plain : jsstring := lit "{" ++ q "messages" ++ lit ":[]}".

(** [{"messages":[],"model":"x"}] *)
Definition body_model_x : jsstring :=
  lit "{" ++ q "messages" ++ lit ":[]," ++ q "model" ++ lit ":" ++ q "x"
  ++ lit "}".

Definition post (body_text : jsstring) : Request :=
  {| method := lit "POST"; origin := None; request_text := body_text |}.

Definition get_request : Request :=
  {| method := lit "GET"; origin := None; request_text := body_plain |}.

Definition with_key : Env := {| OPENROUTER_API_KEY := Some (lit "sk-test") |}.
Definition without_key : Env := {| OPENROUTER_API_KEY := None |}.

(** An upstream that answers every call with the same response. *)
Definition answers (r : Response)
  : jsstring -> jsstring -> list (jsstring * jsstring) -> option jsstring ->
    fetch_outcome :=
  fun _ _ _ _ => Resolves r.

Definition rate_limited : Response :=
  {| status := 429; headers := [];
     body := Some (text_body (q "rate limited")) |}.

(** A response with status 304, which has no body. *)
Definition not_modified : Response :=
  {| status := 304; headers := []; body := None |}.

(** [{"id":1}], [{"id":2}] and [{"id": 1}] *)
Definition id1 : jsstring := lit "{" ++ q "id" ++ lit ":1}".
Definition id2 : jsstring := lit "{" ++ q "id" ++ lit ":2}".
Definition id1_spaced : jsstring := lit "{" ++ q "id" ++ lit ": 1}".

(** The strings ["\u0041"] and ["A"]. *)
Definition escaped_A : jsstring := q "\u0041".
Definition plain_A : jsstring := q "A".

(** The stream of the specification:
    [data: {"id":1}\n\n], [data: [DONE]\n\n], [data: {"id":2}\n\n]. *)
Definition sse_three : jsstring :=
  lit "data: " ++ id1 ++ [LF; LF]
  ++ lit "data: [DONE]" ++ [LF; LF]
  ++ lit "data: " ++ id2 ++ [LF; LF].

End Examples.

(** Further inputs. *)
Module MoreExamples.

Import Examples.

(** An upstream no call reaches. *)
Definition unreachable
  : jsstring -> jsstring -> list (jsstring * jsstring) -> option jsstring ->
    fetch_outcome :=
  fun _ _ _ _ => Rejects (TransportError 7).

(** A success with the stream of the specification in two chunks. *)
Definition streaming : Response :=
  {| status := 200; headers := [];
     body := Some {| chunks := [lit "data: " ++ id1 ++ [LF; LF]
                                ++ lit "data: [DO";
                                lit "NE]" ++ [LF; LF] ++ lit "data: " ++ id2
                                ++ [LF; LF]];
                     end_of_body := Done |} |}.

(** [data: {"id":1}], [: keep-alive], [data: not-json], [data: {"id":2}] *)
Definition four_lines : list jsstring :=
  [lit "data: " ++ id1; lit ": keep-alive"; lit "data: not-json";
   lit "data: " ++ id2].

(** [{"messages":[],"temperature":1,"stream":false}] as a value. *)
Definition body_with_fields : list (jsstring * value (NM := IntegerNumbers.model)) :=
  [(lit "messages", VArr []); (lit "temperature", VNum (NM := IntegerNumbers.model) 1%Z);
   (lit "stream", VBool false)].

End MoreExamples.

(** * Properties *)

(** ** Strings *)

Module JSStringFacts.

Lemma eqb_eq (a b : jsstring) : eqb a b = true <-> a = b.
Proof.
  revert b; induction a as [|x a IH]; intros [|y b]; simpl;
    try (split; [discriminate | congruence]); try tauto.
  rewrite andb_true_iff, N.eqb_eq, IH.
  split; [intros [-> ->]; reflexivity | intros H; inversion H; auto].
Qed.

Lemma eqb_refl (a : jsstring) : eqb a a = true.
Proof. apply eqb_eq; reflexivity. Qed.

Lemma eqb_neq (a b : jsstring) : a <> b -> eqb a b = false.
Proof.
  intros H; destruct (eqb a b) eqn:E; [|reflexivity].
  apply eqb_eq in E; contradiction.
Qed.

Lemma eqb_false_neq (a b : jsstring) : eqb a b = false -> a <> b.
Proof. intros E ->; rewrite eqb_refl in E; discriminate. Qed.

(** [indexOf] finds the first occurrence: the text splits there. *)
Lemma indexOf_Some (s : jsstring) (c : code_unit) (i : nat) :
  indexOf s c = Some i ->
  s = slice_to s i ++ c :: slice_from s (i + 1) /\ ~ In c (slice_to s i).
Proof.
  unfold slice_to, slice_from.
  revert i; induction s as [|x s IH]; intros i; simpl; [discriminate|].
  destruct (N.eqb x c) eqn:E.
  - intros [= <-]; apply N.eqb_eq in E; subst; simpl; auto.
  - destruct (indexOf s c) as [j|]; [|discriminate].
    intros [= <-]; destruct (IH j eq_refl) as [H1 H2]; simpl.
    split; [f_equal; exact H1|].
    intros [->|H]; [rewrite N.eqb_refl in E; discriminate | auto].
Qed.

Lemma indexOf_None (s : jsstring) (c : code_unit) :
  indexOf s c = None <-> ~ In c s.
Proof.
  induction s as [|x s IH]; simpl; [tauto|].
  destruct (N.eqb x c) eqn:E.
  - apply N.eqb_eq in E; split; [discriminate | intros H; exfalso; auto].
  - destruct (indexOf s c) as [j|].
    + split; [discriminate|]; intros H; exfalso; apply H; right.
      destruct (in_dec N.eq_dec c s) as [Hi|Hn]; [exact Hi|].
      apply IH in Hn; discriminate.
    + split; [|reflexivity]; intros _ [->|H].
      * rewrite N.eqb_refl in E; discriminate.
      * apply IH in H; auto.
Qed.

(** The first occurrence in a text whose head part is free of [c]. *)
Lemma indexOf_app (l r : jsstring) (c : code_unit) :
  ~ In c l -> indexOf (l ++ c :: r) c = Some (List.length l).
Proof.
  induction l as [|x l IH]; simpl; intros H.
  - rewrite N.eqb_refl; reflexivity.
  - destruct (N.eqb x c) eqn:E.
    + apply N.eqb_eq in E; exfalso; auto.
    + rewrite IH by auto; reflexivity.
Qed.

End JSStringFacts.

Import JSStringFacts.

(** ** Objects *)

Section ObjectFacts.

Context {NM : NumberModel}.

Lemma obj_get_update_same (ps : properties) k v :
  obj_has ps k = true -> obj_get (obj_update ps k v) k = Some v.
Proof.
  unfold obj_has; induction ps as [|[k' v'] ps IH]; simpl; [discriminate|].
  destruct (eqb k' k) eqn:E; simpl; rewrite E; auto.
Qed.

Lemma obj_get_update_other (ps : properties) k v k' :
  k' <> k -> obj_get (obj_update ps k v) k' = obj_get ps k'.
Proof.
  intros Hn; induction ps as [|[k0 v0] ps IH]; simpl; [reflexivity|].
  destruct (eqb k0 k) eqn:E; simpl.
  - apply eqb_eq in E; subst k0.
    rewrite (eqb_neq (not_eq_sym Hn)); reflexivity.
  - rewrite IH; reflexivity.
Qed.

Lemma obj_get_insert_same (ps : properties) i k v :
  obj_get ps k = None -> obj_get (obj_insert_index ps i k v) k = Some v.
Proof.
  induction ps as [|[k' v'] ps IH]; simpl; intros H.
  - rewrite eqb_refl; reflexivity.
  - destruct (eqb k' k) eqn:E; [discriminate|].
    destruct (array_index k') as [j|]; simpl.
    + destruct (i <? j)%N; simpl; [rewrite eqb_refl | rewrite E]; auto.
    + rewrite eqb_refl; reflexivity.
Qed.

Lemma obj_get_insert_other (ps : properties) i k v k' :
  k' <> k -> obj_get (obj_insert_index ps i k v) k' = obj_get ps k'.
Proof.
  intros Hn; pose proof (eqb_neq (not_eq_sym Hn)) as E.
  induction ps as [|[k0 v0] ps IH]; simpl; [rewrite E; reflexivity|].
  destruct (array_index k0) as [j|]; simpl.
  - destruct (i <? j)%N; simpl; [rewrite E | rewrite IH]; reflexivity.
  - rewrite E; reflexivity.
Qed.

Lemma obj_get_app (ps qs : properties) k :
  obj_get (ps ++ qs) k =
  match obj_get ps k with Some v => Some v | None => obj_get qs k end.
Proof.
  induction ps as [|[k' v'] ps IH]; simpl; [reflexivity|].
  destruct (eqb k' k); auto.
Qed.

(** A property just defined is read back. *)
Lemma obj_get_define_same (ps : properties) k v :
  obj_get (obj_define ps k v) k = Some v.
Proof.
  unfold obj_define; destruct (obj_has ps k) eqn:H.
  - apply obj_get_update_same; exact H.
  - unfold obj_has in H. destruct (obj_get ps k) eqn:G; [discriminate|].
    destruct (array_index k).
    + apply obj_get_insert_same; exact G.
    + rewrite obj_get_app, G; simpl; rewrite eqb_refl; reflexivity.
Qed.

(** Defining a property leaves the others as they are. *)
Lemma obj_get_define_other (ps : properties) k v k' :
  k' <> k -> obj_get (obj_define ps k v) k' = obj_get ps k'.
Proof.
  intros Hn; unfold obj_define; destruct (obj_has ps k).
  - apply obj_get_update_other; exact Hn.
  - destruct (array_index k).
    + apply obj_get_insert_other; exact Hn.
    + rewrite obj_get_app; simpl.
      rewrite (eqb_neq (not_eq_sym Hn)); destruct (obj_get ps k'); auto.
Qed.

Lemma obj_get_define_all_other (kvs ps : properties) k :
  obj_get kvs k = None -> obj_get (obj_define_all ps kvs) k = obj_get ps k.
Proof.
  unfold obj_define_all; revert ps.
  induction kvs as [|[k' v'] kvs IH]; simpl; intros ps H; [reflexivity|].
  destruct (eqb k' k) eqn:E; [discriminate|].
  rewrite IH by exact H.
  apply obj_get_define_other; intros ->; rewrite eqb_refl in E; discriminate.
Qed.

Lemma obj_get_None_not_key (kvs : properties) k :
  ~ In k (map fst kvs) -> obj_get kvs k = None.
Proof.
  induction kvs as [|[k' v'] kvs IH]; simpl; intros H; [reflexivity|].
  rewrite eqb_neq by (intros ->; auto). apply IH; auto.
Qed.

(** Spreading an object with distinct keys over another: its properties
    win, the others stay. *)
Lemma obj_get_define_all (kvs ps : properties) k :
  NoDup (map fst kvs) ->
  obj_get (obj_define_all ps kvs) k =
  match obj_get kvs k with Some v => Some v | None => obj_get ps k end.
Proof.
  unfold obj_define_all; revert ps.
  induction kvs as [|[k' v'] kvs IH]; simpl; intros ps H; [reflexivity|].
  inversion H as [|? ? Hnot Hnd]; subst.
  destruct (eqb k' k) eqn:E.
  - apply eqb_eq in E; subst k'.
    fold (obj_define_all (obj_define ps k v') kvs).
    rewrite obj_get_define_all_other by (apply obj_get_None_not_key; exact Hnot).
    apply obj_get_define_same.
  - rewrite IH by exact Hnd.
    destruct (obj_get kvs k); [reflexivity|].
    apply obj_get_define_other; intros ->; rewrite eqb_refl in E; discriminate.
Qed.

Lemma obj_get_restOfBody (ps : properties) k :
  obj_get (restOfBody ps) k =
  if eqb k (lit "messages") || eqb k (lit "model") then None
  else obj_get ps k.
Proof.
  unfold restOfBody; induction ps as [|[k' v'] ps IH]; simpl.
  - destruct (_ || _); reflexivity.
  - destruct (eqb k' k) eqn:E.
    + apply eqb_eq in E; subst k'.
      destruct (eqb k (lit "messages")) eqn:E1; simpl.
      * exact IH.
      * destruct (eqb k (lit "model")) eqn:E2; simpl.
        -- exact IH.
        -- rewrite eqb_refl; reflexivity.
    + destruct (negb (eqb k' (lit "messages")) && negb (eqb k' (lit "model")));
        simpl; [rewrite E|]; exact IH.
Qed.

Lemma restOfBody_NoDup (ps : properties) :
  NoDup (map fst ps) -> NoDup (map fst (restOfBody ps)).
Proof.
  unfold restOfBody; induction ps as [|[k v] ps IH]; simpl; intros H;
    [constructor|].
  inversion H as [|? ? Hnot Hnd]; subst.
  destruct (negb (eqb k (lit "messages")) && negb (eqb k (lit "model")));
    simpl; [|auto].
  constructor; [|auto].
  intros Hin; apply Hnot.
  apply in_map_iff in Hin; destruct Hin as [[k' v'] [Hk Hin]].
  apply filter_In in Hin; destruct Hin as [Hin _].
  apply in_map_iff; exists (k', v'); auto.
Qed.

End ObjectFacts.

(** ** The outbound payload (lines 62-68) *)

Section PayloadFacts.

Context {NM : NumberModel}.

Lemma model_is_not_messages : lit "model" <> lit "messages".
Proof. discriminate. Qed.

Lemma model_is_not_stream : lit "model" <> lit "stream".
Proof. discriminate. Qed.

Lemma stream_is_not_messages : lit "stream" <> lit "messages".
Proof. discriminate. Qed.

(** The payload exists for every body but [null], and its [model] is
    [requestModel || MODEL]: nothing of the inbound body is spread over it,
    because the destructuring took [model] out of the rest. *)
Lemma buildPayload_model (requestBody : value) (ps : properties) :
  own_properties requestBody = Some ps ->
  exists payload,
    buildPayload requestBody = Some payload /\
    obj_get payload (lit "model") =
    Some (js_or (GetV ps (lit "model")) (VStr MODEL)).
Proof.
  intros H; unfold buildPayload; rewrite H.
  eexists; split; [reflexivity|].
  rewrite obj_get_define_all_other
    by (rewrite obj_get_restOfBody; reflexivity).
  rewrite obj_get_define_other by exact model_is_not_stream.
  rewrite obj_get_define_other by exact model_is_not_messages.
  apply obj_get_define_same.
Qed.

(** The [stream] of the payload is the inbound one where the body has one:
    the rest of the body is spread after [stream: true]. *)
Lemma buildPayload_stream (requestBody : value) (ps : properties) :
  own_properties requestBody = Some ps ->
  NoDup (map fst ps) ->
  exists payload,
    buildPayload requestBody = Some payload /\
    obj_get payload (lit "stream") =
    Some (match obj_get ps (lit "stream") with
          | Some v => v
          | None => VBool true
          end).
Proof.
  intros H Hnd; unfold buildPayload; rewrite H.
  eexists; split; [reflexivity|].
  rewrite obj_get_define_all by (apply restOfBody_NoDup; exact Hnd).
  rewrite obj_get_restOfBody.
  replace (eqb (lit "stream") (lit "messages") || eqb (lit "stream") (lit "model"))
    with false by reflexivity.
  destruct (obj_get ps (lit "stream")); [reflexivity|].
  apply obj_get_define_same.
Qed.

(** C2.  For every inbound body that has a payload (every JSON value but
    [null], whose destructuring throws), the payload's [model] is the
    inbound [model] when that is a non-empty string, and the fixed default
    when the field is absent or the empty string; in general it is
    [requestModel || MODEL].  No inbound field takes its place in the
    merge. *)
Theorem payload_model_inbound_or_default (requestBody : value) (ps : properties) :
  own_properties requestBody = Some ps ->
  exists payload,
    buildPayload requestBody = Some payload /\
    (forall m, obj_get ps (lit "model") = Some (VStr m) -> m <> [] ->
               obj_get payload (lit "model") = Some (VStr m)) /\
    (obj_get ps (lit "model") = None ->
     obj_get payload (lit "model") = Some (VStr MODEL)) /\
    (obj_get ps (lit "model") = Some (VStr []) ->
     obj_get payload (lit "model") = Some (VStr MODEL)) /\
    obj_get payload (lit "model") =
    Some (js_or (GetV ps (lit "model")) (VStr MODEL)).
Proof.
  intros H; destruct (buildPayload_model _ H) as [payload [Hp Hm]].
  exists payload; split; [exact Hp|]; unfold GetV in Hm.
  repeat split; try exact Hm.
  - intros m Hg Hne; rewrite Hm, Hg; destruct m; [contradiction|reflexivity].
  - intros Hg; rewrite Hm, Hg; reflexivity.
  - intros Hg; rewrite Hm, Hg; reflexivity.
Qed.

End PayloadFacts.

(** With no [model] in [{"messages":[]}] the default is sent; with
    [model: "x"] it is ["x"]. *)
Lemma payload_model_inbound_or_default_witness :
  exists payload,
    buildPayload (NM := IntegerNumbers.model)
      (VObj [(lit "messages", VArr []); (lit "model", VStr (lit "x"))])
    = Some payload /\
    obj_get payload (lit "model") = Some (VStr (lit "x")).
Proof.
  destruct (@payload_model_inbound_or_default IntegerNumbers.model
              (VObj [(lit "messages", VArr []); (lit "model", VStr (lit "x"))])
              _ eq_refl) as [payload [Hp [Hx _]]].
  exists payload; split; [exact Hp|].
  apply Hx; [reflexivity | discriminate].
Defined.

(** ** Lines of a text *)

Module LinesFacts.

Lemma lines_of_no_LF (s : jsstring) : ~ In LF s -> lines_of s = ([], s).
Proof.
  induction s as [|c s IH]; simpl; intros H; [reflexivity|].
  rewrite IH by auto.
  destruct (N.eqb c LF) eqn:E; [|reflexivity].
  apply N.eqb_eq in E; exfalso; auto.
Qed.

Lemma lines_of_line (l r : jsstring) :
  ~ In LF l ->
  lines_of (l ++ LF :: r) = (l :: fst (lines_of r), snd (lines_of r)).
Proof.
  induction l as [|c l IH]; intros H.
  - simpl; destruct (lines_of r); reflexivity.
  - change (lines_of ((c :: l) ++ LF :: r))
      with (let (ls, r0) := lines_of (l ++ LF :: r) in
            if N.eqb c LF then ([] :: ls, r0)
            else match ls with
                 | [] => ([], c :: r0)
                 | l0 :: ls' => ((c :: l0) :: ls', r0)
                 end).
    rewrite IH by (intros Hin; apply H; right; exact Hin).
    destruct (N.eqb c LF) eqn:E; [|reflexivity].
    apply N.eqb_eq in E; exfalso; apply H; left; exact E.
Qed.

Lemma lines_of_rest_no_LF (s : jsstring) : ~ In LF (snd (lines_of s)).
Proof.
  induction s as [|c s IH]; simpl; [tauto|].
  destruct (lines_of s) as [ls r]; simpl in IH.
  destruct (N.eqb c LF) eqn:E; [exact IH|].
  destruct ls; simpl; [|exact IH].
  intros [->|H]; [rewrite N.eqb_refl in E; discriminate | auto].
Qed.

Lemma lines_of_lines_no_LF (s : jsstring) :
  Forall (fun l => ~ In LF l) (fst (lines_of s)).
Proof.
  induction s as [|c s IH]; simpl; [constructor|].
  destruct (lines_of s) as [ls r]; simpl in IH.
  destruct (N.eqb c LF) eqn:E; simpl.
  - constructor; [tauto | exact IH].
  - destruct ls as [|l ls]; simpl; [constructor|].
    inversion IH as [|? ? Hl Hls]; subst.
    constructor; [|exact Hls].
    intros [->|H]; [rewrite N.eqb_refl in E; discriminate | auto].
Qed.

(** A text is its complete lines and its rest. *)
Lemma lines_of_unlines_rest (s : jsstring) :
  s = unlines (fst (lines_of s)) ++ snd (lines_of s).
Proof.
  induction s as [|c s IH]; simpl; [reflexivity|].
  destruct (lines_of s) as [ls r]; simpl in IH.
  destruct (N.eqb c LF) eqn:E; simpl.
  - apply N.eqb_eq in E; subst c; f_equal; exact IH.
  - destruct ls as [|l ls]; simpl in *; f_equal; exact IH.
Qed.

Lemma lines_of_unlines (ls : list jsstring) (r : jsstring) :
  Forall (fun l => ~ In LF l) ls -> ~ In LF r ->
  lines_of (unlines ls ++ r) = (ls, r).
Proof.
  intros Hls Hr; induction Hls as [|l ls Hl _ IH]; simpl.
  - apply lines_of_no_LF; exact Hr.
  - rewrite <- !app_assoc; simpl.
    rewrite lines_of_line by exact Hl.
    fold (unlines ls); rewrite IH; reflexivity.
Qed.

(** Lines may be taken from a text in two goes. *)
Lemma lines_of_app (a b : jsstring) :
  lines_of (a ++ b) =
  (fst (lines_of a) ++ fst (lines_of (snd (lines_of a) ++ b)),
   snd (lines_of (snd (lines_of a) ++ b))).
Proof.
  induction a as [|c a IH]; simpl.
  - destruct (lines_of b); reflexivity.
  - rewrite IH; destruct (lines_of a) as [l1 r1]; simpl.
    destruct (N.eqb c LF) eqn:E; simpl; [reflexivity|].
    destruct l1 as [|l l1]; simpl.
    + rewrite E.
      destruct (lines_of (r1 ++ b)) as [l2 r2]; simpl.
      destruct l2; reflexivity.
    + reflexivity.
Qed.

End LinesFacts.

Import LinesFacts.

(** ** The copy loop *)

Section StreamFacts.

Context {NM : NumberModel}.

Variable client : option nat.

Lemma set_buffer_set_buffer (st : relay_state) (a b : jsstring) :
  set_buffer (set_buffer st a) b = set_buffer st b.
Proof. reflexivity. Qed.

Lemma set_buffer_same (st : relay_state) : set_buffer st (buffer st) = st.
Proof. destruct st; reflexivity. Qed.

(** The loop body reads and writes everything but the buffer. *)
Lemma forward_set_buffer (line : jsstring) (st : relay_state) (b : jsstring) :
  forward client line (set_buffer st b) = set_buffer (forward client line st) b.
Proof.
  unfold forward.
  destruct (startsWith line (lit "data: ")); [|reflexivity].
  destruct (eqb (slice_from line 6) (lit "[DONE]")); [reflexivity|].
  destruct (JSON.parse (slice_from line 6)); [|reflexivity].
  unfold write; simpl.
  destruct (writer st); try reflexivity.
  destruct (client_reads client (List.length (written st))); reflexivity.
Qed.

Lemma run_lines_set_buffer (ls : list jsstring) (st : relay_state) (b : jsstring) :
  run_lines client ls (set_buffer st b) = set_buffer (run_lines client ls st) b.
Proof.
  unfold run_lines; revert st.
  induction ls as [|l ls IH]; intros st; simpl; [reflexivity|].
  rewrite forward_set_buffer; apply IH.
Qed.

Lemma run_lines_app (l1 l2 : list jsstring) (st : relay_state) :
  run_lines client (l1 ++ l2) st = run_lines client l2 (run_lines client l1 st).
Proof. unfold run_lines; apply fold_left_app. Qed.

Lemma drain_S (fuel : nat) (st : relay_state) :
  drain client (S fuel) st =
  match indexOf (buffer st) LF with
  | None => st
  | Some lineEnd =>
    drain client fuel
      (forward client (trim (slice_to (buffer st) lineEnd))
         (set_buffer st (slice_from (buffer st) (lineEnd + 1))))
  end.
Proof. reflexivity. Qed.

(** The line loop, given fuel for its buffer, runs the complete lines of
    the buffer in order and leaves the rest in the buffer. *)
Lemma drain_lines (fuel : nat) (st : relay_state) :
  List.length (buffer st) <= fuel ->
  drain client fuel st =
  set_buffer (run_lines client (fst (lines_of (buffer st))) st)
             (snd (lines_of (buffer st))).
Proof.
  revert st; induction fuel as [|fuel IH]; intros st Hlen.
  - destruct st as [b w c s]; simpl in *.
    destruct b; [reflexivity | simpl in Hlen; lia].
  - rewrite drain_S. destruct (indexOf (buffer st) LF) as [i|] eqn:E.
    + destruct (indexOf_Some _ _ E) as [Hsplit Hfree].
      set (l := slice_to (buffer st) i) in *.
      set (r := slice_from (buffer st) (i + 1)) in *.
      clearbody l r.
      assert (Hr : List.length r <= fuel).
      { rewrite Hsplit in Hlen; rewrite length_app in Hlen; simpl in Hlen; lia. }
      rewrite IH by (rewrite forward_set_buffer; exact Hr).
      rewrite forward_set_buffer; simpl buffer.
      rewrite run_lines_set_buffer, set_buffer_set_buffer.
      rewrite Hsplit, lines_of_line by exact Hfree.
      reflexivity.
    + apply indexOf_None in E.
      rewrite lines_of_no_LF by exact E; simpl.
      symmetry; apply set_buffer_same.
Qed.

(** The loop leaves no line feed in the buffer: it ends because its
    condition fails, not because the fuel ran out. *)
Lemma drain_complete (fuel : nat) (st : relay_state) :
  List.length (buffer st) <= fuel ->
  indexOf (buffer (drain client fuel st)) LF = None.
Proof.
  intros H; rewrite drain_lines by exact H; simpl.
  apply indexOf_None, lines_of_rest_no_LF.
Qed.

Lemma receive_lines (st : relay_state) (chunk : jsstring) :
  receive client st chunk =
  set_buffer (run_lines client (fst (lines_of (buffer st ++ chunk))) st)
             (snd (lines_of (buffer st ++ chunk))).
Proof.
  unfold receive; rewrite drain_lines by reflexivity; simpl buffer.
  rewrite run_lines_set_buffer, set_buffer_set_buffer; reflexivity.
Qed.

(** However the upstream cuts its text into chunks, the loop runs the
    complete lines of the whole text, in order. *)
Lemma feed_lines (cs : list jsstring) (st : relay_state) :
  ~ In LF (buffer st) ->
  feed client cs st =
  set_buffer
    (run_lines client (fst (lines_of (buffer st ++ List.concat cs))) st)
    (snd (lines_of (buffer st ++ List.concat cs))).
Proof.
  unfold feed; revert st; induction cs as [|c cs IH]; intros st Hb; simpl.
  - rewrite app_nil_r, lines_of_no_LF by exact Hb; simpl.
    symmetry; apply set_buffer_same.
  - rewrite receive_lines.
    rewrite IH by (simpl; apply lines_of_rest_no_LF); simpl buffer.
    rewrite run_lines_set_buffer, set_buffer_set_buffer.
    rewrite app_assoc, (lines_of_app (buffer st ++ c)); simpl fst; simpl snd.
    rewrite run_lines_app; reflexivity.
Qed.

Lemma feed_initial (cs : list jsstring) :
  feed client cs initial =
  set_buffer (run_lines client (fst (lines_of (List.concat cs))) initial)
             (snd (lines_of (List.concat cs))).
Proof. rewrite feed_lines by (simpl; tauto); reflexivity. Qed.

End StreamFacts.

(** ** What the loop writes and logs *)

Section RelayFacts.

Context {NM : NumberModel}.

(** While the client reads, a line adds its events to the output and its
    diagnostics to the console, and the writer stays open. *)
Lemma forward_reading (line : jsstring) (st : relay_state) :
  writer st = Open ->
  forward None (trim line) st =
  {| buffer := buffer st;
     written := written st ++ forwarded line;
     console := console st ++ diagnostics line;
     writer := Open |}.
Proof.
  intros Hw; unfold forward, forwarded, diagnostics, is_malformed, data_of,
    reserialize.
  generalize (slice_from (trim line) 6); intros data.
  destruct (startsWith (trim line) (lit "data: ")).
  - destruct (eqb data (lit "[DONE]")); simpl.
    + rewrite !app_nil_r; destruct st; simpl in *; subst; reflexivity.
    + destruct (JSON.parse data); simpl.
      * unfold write; rewrite Hw; simpl; rewrite app_nil_r; reflexivity.
      * unfold log; rewrite app_nil_r, Hw; reflexivity.
  - rewrite !app_nil_r; destruct st; simpl in *; subst; reflexivity.
Qed.

Lemma run_lines_reading (ls : list jsstring) (st : relay_state) :
  writer st = Open ->
  run_lines None ls st =
  {| buffer := buffer st;
     written := written st ++ flat_map forwarded ls;
     console := console st ++ flat_map diagnostics ls;
     writer := Open |}.
Proof.
  unfold run_lines; revert st; induction ls as [|l ls IH]; intros st Hw; simpl.
  - rewrite !app_nil_r; destruct st; simpl in *; subst; reflexivity.
  - rewrite forward_reading by exact Hw.
    rewrite IH by reflexivity; simpl.
    rewrite <- !app_assoc; reflexivity.
Qed.

(** The whole copy task, for a client that reads to the end and an
    upstream that ends normally: the events of the complete lines, their
    diagnostics, a closed stream, and the unfinished rest left in the
    buffer. *)
Lemma processStream_reading (cs : list jsstring) :
  processStream None {| chunks := cs; end_of_body := Done |} =
  {| buffer := snd (lines_of (List.concat cs));
     written := flat_map forwarded (fst (lines_of (List.concat cs)));
     console := flat_map diagnostics (fst (lines_of (List.concat cs)));
     writer := Closed |}.
Proof.
  unfold processStream; simpl.
  rewrite feed_initial, run_lines_reading by reflexivity.
  reflexivity.
Qed.

Lemma firstn_firstn_app (A : Type) (k : nat) (a b : list A) :
  firstn k (firstn k a ++ b) = firstn k (a ++ b).
Proof.
  destruct (Nat.le_gt_cases (List.length a) k) as [H|H].
  - rewrite (firstn_all2 a) by exact H; reflexivity.
  - rewrite !firstn_app, length_firstn.
    replace (k - Nat.min k (List.length a)) with 0 by lia.
    replace (k - List.length a) with 0 by lia.
    simpl; rewrite !app_nil_r.
    rewrite firstn_firstn; f_equal; lia.
Qed.

Lemma taken_taken_app (client : option nat) (a b : list jsstring) :
  taken client (taken client a ++ b) = taken client (a ++ b).
Proof. destruct client; simpl; [apply firstn_firstn_app | reflexivity]. Qed.

(** One line, whatever the client does: the writer keeps agreeing with the
    client, and what is written is what the client takes. *)
Lemma forward_tracks (client : option nat) (line : jsstring) (st : relay_state) :
  tracks client st ->
  tracks client (forward client (trim line) st) /\
  written (forward client (trim line) st) =
  taken client (written st ++ forwarded line).
Proof.
  intros Ht.
  assert (Hsame : tracks client st /\
                  written st = taken client (written st ++ [])).
  { split; [exact Ht|]; rewrite app_nil_r.
    destruct client as [k|]; simpl; [|reflexivity].
    destruct Ht as [Hle _]; symmetry; apply firstn_all2; exact Hle. }
  unfold forward, forwarded, data_of, reserialize.
  destruct (startsWith (trim line) (lit "data: ")); [|exact Hsame].
  destruct (eqb (slice_from (trim line) 6) (lit "[DONE]")); [exact Hsame|].
  destruct (JSON.parse (slice_from (trim line) 6)); [|exact Hsame].
  set (chunk := frame _).
  unfold write, client_reads.
  destruct client as [k|]; simpl in *.
  - destruct Ht as [Hle [Hw|[[e Hw] Hk]]]; rewrite Hw.
    + destruct (Nat.ltb_spec (List.length (written st)) k) as [Hlt|Hge]; simpl.
      * split; [split; [rewrite length_app; simpl; lia | left; reflexivity]|].
        symmetry; apply firstn_all2; rewrite length_app; simpl; lia.
      * assert (Hk : List.length (written st) = k) by lia.
        split; [split; [exact Hle | right; split; [eauto | exact Hk]]|].
        rewrite firstn_app, Hk, Nat.sub_diag; simpl.
        rewrite app_nil_r; symmetry; apply firstn_all2; lia.
    + simpl. split; [split; [exact Hle | right; split; [eauto | exact Hk]]|].
      rewrite firstn_app, Hk, Nat.sub_diag; simpl.
      rewrite app_nil_r; symmetry; apply firstn_all2; lia.
  - rewrite Ht; simpl; split; reflexivity.
Qed.

Lemma run_lines_tracks (client : option nat) (ls : list jsstring)
  (st : relay_state) :
  tracks client st ->
  tracks client (run_lines client ls st) /\
  written (run_lines client ls st) =
  taken client (written st ++ flat_map forwarded ls).
Proof.
  unfold run_lines; revert st; induction ls as [|l ls IH]; intros st Ht; simpl.
  - split; [exact Ht|]; rewrite app_nil_r.
    destruct client as [k|]; simpl; [|reflexivity].
    destruct Ht as [Hle _]; symmetry; apply firstn_all2; exact Hle.
  - destruct (forward_tracks client l st Ht) as [Ht' Hw'].
    destruct (IH _ Ht') as [Ht'' Hw'']; split; [exact Ht''|].
    rewrite Hw'', Hw', taken_taken_app, <- app_assoc; reflexivity.
Qed.

Lemma tracks_initial (client : option nat) : tracks client initial.
Proof. destruct client; simpl; [split; [lia | left; reflexivity] | reflexivity]. Qed.

(** Closing and aborting write nothing. *)
Lemma written_close (client : option nat) (st : relay_state) :
  written (close client st) = written st.
Proof.
  unfold close; destruct (writer st); try reflexivity.
  destruct (client_reads client (List.length (written st))); reflexivity.
Qed.

Lemma written_abort (st : relay_state) (e : error) :
  written (abort st e) = written st.
Proof. reflexivity. Qed.

(** Closing does not look at the buffer. *)
Lemma close_set_buffer (client : option nat) (st : relay_state) (b : jsstring) :
  close client (set_buffer st b) = set_buffer (close client st) b.
Proof.
  unfold close; simpl; destruct (writer st); try reflexivity.
  destruct (client_reads client (List.length (written st))); reflexivity.
Qed.

(** The copy task makes no outbound call. *)
Lemma forward_calls (client : option nat) (line : jsstring) (st : relay_state) :
  upstream_calls (console (forward client line st)) =
  upstream_calls (console st).
Proof.
  unfold forward.
  destruct (startsWith line (lit "data: ")); [|reflexivity].
  destruct (eqb (slice_from line 6) (lit "[DONE]")); [reflexivity|].
  destruct (JSON.parse (slice_from line 6)).
  - unfold write; destruct (writer st); simpl;
      try (unfold upstream_calls; rewrite filter_app, app_nil_r; reflexivity).
    destruct (client_reads client (List.length (written st))); simpl;
      [reflexivity|].
    unfold upstream_calls; rewrite filter_app, app_nil_r; reflexivity.
  - simpl; unfold upstream_calls; rewrite filter_app, app_nil_r; reflexivity.
Qed.

Lemma run_lines_calls (client : option nat) (ls : list jsstring)
  (st : relay_state) :
  upstream_calls (console (run_lines client ls st)) =
  upstream_calls (console st).
Proof.
  unfold run_lines; revert st; induction ls as [|l ls IH]; intros st; simpl;
    [reflexivity|].
  rewrite IH; apply forward_calls.
Qed.

Lemma processStream_calls (client : option nat) (b : Body) :
  upstream_calls (console (processStream client b)) = [].
Proof.
  unfold processStream; rewrite feed_initial.
  set (st := set_buffer _ _).
  assert (H : upstream_calls (console st) = [])
    by (unfold st; simpl; rewrite run_lines_calls; reflexivity).
  clearbody st.
  assert (Ha : forall e, upstream_calls (console (abort st e)) = []).
  { intros e; simpl; unfold upstream_calls in *.
    rewrite filter_app, H; reflexivity. }
  destruct (end_of_body b); [|apply Ha].
  unfold close; destruct (writer st); auto.
  destruct (client_reads client (List.length (written st))); auto.
Qed.

End RelayFacts.

(** ** The copy task: the properties of the specification *)

Section CopyTask.

Context {NM : NumberModel}.

(** No batching: a line is forwarded as at most one chunk, one framed
    event. *)
Lemma forwarded_one_event (line : jsstring) :
  forwarded line = [] \/ exists t, forwarded line = [frame t].
Proof.
  unfold forwarded; destruct (data_of line) as [j|]; [|left; reflexivity].
  destruct (eqb j (lit "[DONE]")); [left; reflexivity|].
  destruct (reserialize j); [right; eauto | left; reflexivity].
Qed.

Lemma sentinel_not_forwarded (line : jsstring) :
  is_sentinel line = true -> forwarded line = [] /\ diagnostics line = [].
Proof.
  unfold is_sentinel, forwarded, diagnostics, is_malformed.
  destruct (data_of line) as [j|]; [|discriminate].
  intros ->; split; reflexivity.
Qed.

Lemma malformed_not_forwarded (line : jsstring) :
  is_malformed line = true ->
  forwarded line = [] /\ diagnostics line = [parse_diagnostic].
Proof.
  unfold forwarded, diagnostics, reserialize; intros H; rewrite H.
  unfold is_malformed in H; destruct (data_of line) as [j|]; [|discriminate].
  destruct (eqb j (lit "[DONE]")); [discriminate|].
  destruct (JSON.parse j); [discriminate|]; split; reflexivity.
Qed.

(** C8.  Whatever the chunks the upstream cuts its text into, and whatever
    the client takes, what has been written after any number of chunks,
    and at the end, is the sequence of events of the complete lines
    received, one chunk per forwarded line, in the order of the lines. *)
Theorem forwarded_in_order_of_receipt (client : option nat)
  (cs : list jsstring) (e : ending) :
  written (feed client cs initial) =
  taken client (flat_map forwarded (fst (lines_of (List.concat cs)))) /\
  written (processStream client {| chunks := cs; end_of_body := e |}) =
  taken client (flat_map forwarded (fst (lines_of (List.concat cs)))).
Proof.
  assert (H : written (feed client cs initial) =
              taken client (flat_map forwarded (fst (lines_of (List.concat cs))))).
  { rewrite feed_initial; simpl.
    destruct (run_lines_tracks client (fst (lines_of (List.concat cs)))
                initial (tracks_initial client)) as [_ Hw].
    exact Hw. }
  split; [exact H|].
  unfold processStream; simpl; destruct e.
  - rewrite written_close; exact H.
  - rewrite written_abort; exact H.
Qed.

(** C4.  A stream, however cut into chunks, with a malformed data line
    among its lines: the copy task writes the events of the lines before
    it and of the lines after it, in order, and closes the stream; for the
    line itself it calls [console.error] once, with [[owr error]],
    [Error parsing SSE data] and the SyntaxError, in its place among the
    diagnostics. *)
Theorem malformed_line_logged_and_dropped (cs : list jsstring)
  (before after : list jsstring) (bad rest : jsstring) :
  Forall (fun l => ~ In LF l) (before ++ bad :: after) ->
  ~ In LF rest ->
  List.concat cs = unlines (before ++ bad :: after) ++ rest ->
  is_malformed bad = true ->
  processStream None {| chunks := cs; end_of_body := Done |} =
  {| buffer := rest;
     written := flat_map forwarded before ++ flat_map forwarded after;
     console := flat_map diagnostics before
                ++ ConsoleError [AText (lit "[owr error]");
                                 AText (lit "Error parsing SSE data");
                                 AError JSONSyntaxError]
                   :: flat_map diagnostics after;
     writer := Closed |}.
Proof.
  intros Hls Hrest Htext Hbad.
  rewrite processStream_reading, Htext, lines_of_unlines by assumption.
  destruct (malformed_not_forwarded _ Hbad) as [Hf Hd].
  simpl fst; simpl snd.
  rewrite !flat_map_app; simpl; rewrite Hf, Hd; reflexivity.
Qed.

(** C3.  The stream [data: {"id":1}\n\n], [data: [DONE]\n\n],
    [data: {"id":2}\n\n], however cut into chunks: exactly two events are
    written, [data: {"id":1}\n\n] and [data: {"id":2}\n\n]; the sentinel
    line writes nothing, logs nothing and does not end the stream, which
    is closed at the end of the upstream.  (The platform prints the
    numbers 1 and 2 as it read them.) *)
Theorem sentinel_dropped_between_events (cs : list jsstring) :
  number_isFinite (StringToNumber (lit "1")) = true ->
  NumberToString (StringToNumber (lit "1")) = lit "1" ->
  number_isFinite (StringToNumber (lit "2")) = true ->
  NumberToString (StringToNumber (lit "2")) = lit "2" ->
  List.concat cs = Examples.sse_three ->
  processStream None {| chunks := cs; end_of_body := Done |} =
  {| buffer := [];
     written := [lit "data: " ++ Examples.id1 ++ [LF; LF];
                 lit "data: " ++ Examples.id2 ++ [LF; LF]];
     console := [];
     writer := Closed |}.
Proof.
  intros F1 S1 F2 S2 Htext.
  rewrite processStream_reading, Htext.
  vm_compute in F1, S1, F2, S2 |- *.
  rewrite F1, S1, F2, S2; reflexivity.
Qed.

(** C10.  Text after the last line feed, left in the buffer when the
    upstream ends: the copy task writes, logs and ends exactly as on the
    same lines without it, and, for a client that reads to the end, closes
    the stream; the text stays in the buffer, unread. *)
Theorem unfinished_line_discarded (client : option nat) (cs : list jsstring)
  (lines : list jsstring) (tail : jsstring) :
  Forall (fun l => ~ In LF l) lines ->
  ~ In LF tail ->
  List.concat cs = unlines lines ++ tail ->
  let with_tail := processStream client {| chunks := cs; end_of_body := Done |} in
  let without := processStream client {| chunks := [unlines lines];
                                         end_of_body := Done |} in
  written with_tail = written without /\
  console with_tail = console without /\
  writer with_tail = writer without /\
  buffer with_tail = tail /\
  (client = None -> writer with_tail = Closed).
Proof.
  intros Hls Htail Htext with_tail without.
  unfold with_tail, without, processStream; simpl chunks; simpl end_of_body.
  rewrite !feed_initial; simpl List.concat.
  assert (Hnone : lines_of (unlines lines) = (lines, [])).
  { rewrite <- (app_nil_r (unlines lines)).
    apply lines_of_unlines; [exact Hls | simpl; tauto]. }
  rewrite app_nil_r, Htext.
  rewrite lines_of_unlines by assumption.
  rewrite Hnone.
  simpl fst; simpl snd; rewrite !close_set_buffer.
  split; [reflexivity|]; split; [reflexivity|]; split; [reflexivity|].
  split; [reflexivity|].
  intros ->; rewrite run_lines_reading by reflexivity; reflexivity.
Qed.

End CopyTask.

(** The stream of the specification cut inside its lines, the numbers read
    and printed as integers. *)
Lemma sentinel_dropped_between_events_witness :
  processStream (NM := IntegerNumbers.model) None
    {| chunks := [lit "data: " ++ Examples.id1 ++ [LF];
                  [LF] ++ lit "data: [DO";
                  lit "NE]" ++ [LF; LF] ++ lit "data: " ++ Examples.id2
                  ++ [LF; LF]];
       end_of_body := Done |} =
  {| buffer := [];
     written := [lit "data: " ++ Examples.id1 ++ [LF; LF];
                 lit "data: " ++ Examples.id2 ++ [LF; LF]];
     console := [];
     writer := Closed |}.
Proof.
  apply (@sentinel_dropped_between_events IntegerNumbers.model); reflexivity.
Defined.

(** [data: {"id":1}], [data: not-json], [data: {"id":2}]: the first and the
    third line are forwarded, the second is logged. *)
Lemma malformed_line_logged_and_dropped_witness :
  processStream (NM := IntegerNumbers.model) None
    {| chunks := [lit "data: " ++ Examples.id1 ++ [LF] ++ lit "data: not-";
                  lit "json" ++ [LF] ++ lit "data: " ++ Examples.id2 ++ [LF]];
       end_of_body := Done |} =
  {| buffer := [];
     written := [lit "data: " ++ Examples.id1 ++ [LF; LF];
                 lit "data: " ++ Examples.id2 ++ [LF; LF]];
     console := [ConsoleError [AText (lit "[owr error]");
                               AText (lit "Error parsing SSE data");
                               AError JSONSyntaxError]];
     writer := Closed |}.
Proof.
  apply (@malformed_line_logged_and_dropped IntegerNumbers.model
           [lit "data: " ++ Examples.id1 ++ [LF] ++ lit "data: not-";
            lit "json" ++ [LF] ++ lit "data: " ++ Examples.id2 ++ [LF]]
           [lit "data: " ++ Examples.id1]
           [lit "data: " ++ Examples.id2]
           (lit "data: not-json") []).
  - repeat constructor; apply indexOf_None; reflexivity.
  - simpl; tauto.
  - reflexivity.
  - reflexivity.
Defined.

(** [data: {"id":1}\n] followed by [data: {"id":2}] without a line feed:
    the second event is not written and nothing is logged for it. *)
Lemma unfinished_line_discarded_witness :
  let st := processStream (NM := IntegerNumbers.model) None
              {| chunks := [lit "data: " ++ Examples.id1 ++ [LF];
                            lit "data: " ++ Examples.id2];
                 end_of_body := Done |} in
  written st = [lit "data: " ++ Examples.id1 ++ [LF; LF]] /\
  console st = [] /\ writer st = Closed /\
  buffer st = lit "data: " ++ Examples.id2.
Proof.
  destruct (@unfinished_line_discarded IntegerNumbers.model None
              [lit "data: " ++ Examples.id1 ++ [LF];
               lit "data: " ++ Examples.id2]
              [lit "data: " ++ Examples.id1]
              (lit "data: " ++ Examples.id2))
    as [Hw [Hc [Hs [Hb _]]]].
  - repeat constructor; apply indexOf_None; reflexivity.
  - apply indexOf_None; reflexivity.
  - reflexivity.
  - cbv zeta; rewrite Hw, Hc, Hs, Hb; repeat split; reflexivity.
Defined.

(** ** The handler *)

Section HandlerFacts.

Context {NM : NumberModel}.

Variable upstream :
  jsstring -> jsstring -> list (jsstring * jsstring) -> option jsstring ->
  fetch_outcome.

Variable client : option nat.

Lemma upstream_calls_app (a b : list event) :
  upstream_calls (a ++ b) = upstream_calls a ++ upstream_calls b.
Proof. apply filter_app. Qed.

(** Once the body is parsed and the payload built, the upstream is called
    exactly once, with the serialized payload, whatever it answers: there
    is no second call on any path. *)
Lemma handleStream_calls_once (request : Request) (env : Env)
  (apiKey : jsstring) (requestBody : value) (payload : properties) :
  OPENROUTER_API_KEY env = Some apiKey -> apiKey <> [] ->
  json request = Some requestBody ->
  buildPayload requestBody = Some payload ->
  upstream_calls (trace (handleStream upstream client request env)) =
  [Fetch OPENROUTER_URL (lit "POST") (upstream_headers apiKey request)
     (JSON.stringify (VObj payload))].
Proof.
  intros Hkey Hne Hjson Hpay; unfold handleStream.
  rewrite Hkey; destruct apiKey as [|c k]; [contradiction|].
  cbn [falsy ToString]; rewrite Hjson, Hpay.
  destruct (upstream _ _ _ _) as [response|e]; [|reflexivity].
  destruct (negb (ok response)).
  - destruct (text response) as [error_text|e]; [|reflexivity].
    destruct (new_Response _ _ _); reflexivity.
  - destruct (body response) as [b|]; [|reflexivity].
    pose proof (processStream_calls client b) as Hnone.
    unfold respond, upstream_calls in *; simpl.
    rewrite Hnone; reflexivity.
Qed.

(** C6.  With no credential (absent, or empty) the handler calls
    [console.error] once, with [[owr error]] and the message for the
    operator, and answers 401 with [Missing API key]; the trace holds no
    outbound call, and the request body is not read. *)
Theorem missing_credential_unauthorized (request : Request) (env : Env) :
  falsy (OPENROUTER_API_KEY env) = true ->
  handleStream upstream client request env =
  {| trace :=
       [ReadCredential;
        ConsoleError
          [AText (lit "[owr error]");
           AText (lit "Missing OpenRouter API key. Did you forget to set OPENROUTER_API_KEY in .dev.vars (for local dev) or with wrangler secret put OPENROUTER_API_KEY (for production)?")]];
     answer := Returns {| status := 401; headers := [];
                          body := Some (text_body (lit "Missing API key")) |} |}
  /\ upstream_calls (trace (handleStream upstream client request env)) = [].
Proof.
  intros H; unfold handleStream; rewrite H; split; reflexivity.
Qed.

(** C7.  A request whose method is not POST is answered 405 with
    [Method not allowed], and the trace is empty: the credential is not
    read, the body is not read, the upstream is not called, nothing is
    logged. *)
Theorem method_not_allowed (request : Request) (env : Env) :
  method request <> lit "POST" ->
  fetch upstream client request env =
  {| trace := [];
     answer := Returns {| status := 405; headers := [];
                          body := Some (text_body (lit "Method not allowed")) |} |}.
Proof.
  intros H; unfold fetch; rewrite (eqb_neq H); reflexivity.
Qed.

(** C5, as the code has it.  An upstream response that is not a success and
    whose status a response with a body may carry (300 to 599, 304 apart):
    its body is read in full and logged, and the handler answers the same
    status with the body [OpenRouter API error: ] followed by the upstream's
    text; the upstream was called once. *)
Theorem upstream_failure_relayed (request : Request) (env : Env)
  (apiKey : jsstring) (requestBody : value) (payload : properties)
  (response : Response) (error_text : jsstring) :
  OPENROUTER_API_KEY env = Some apiKey -> apiKey <> [] ->
  json request = Some requestBody ->
  buildPayload requestBody = Some payload ->
  upstream OPENROUTER_URL (lit "POST") (upstream_headers apiKey request)
    (JSON.stringify (VObj payload)) = Resolves response ->
  ok response = false ->
  (300 <= status response <= 599)%N -> status response <> 304%N ->
  text response = inl error_text ->
  handleStream upstream client request env =
  {| trace := [ReadCredential; ReadRequestJson;
               Fetch OPENROUTER_URL (lit "POST")
                 (upstream_headers apiKey request)
                 (JSON.stringify (VObj payload));
               ReadResponseText;
               ConsoleError [AText (lit "[owr error]");
                             AText (lit "OpenRouter API error");
                             AText error_text]];
     answer := Returns {| status := status response; headers := [];
                          body := Some (text_body
                                    (lit "OpenRouter API error: " ++ error_text)) |} |}.
Proof.
  intros Hkey Hne Hjson Hpay Hup Hok Hrange H304 Htext; unfold handleStream.
  rewrite Hkey; destruct apiKey as [|c k]; [contradiction|].
  cbn [falsy ToString]; rewrite Hjson, Hpay, Hup, Hok, Htext.
  simpl negb; cbv iota.
  unfold new_Response.
  replace (status response <? 200)%N with false
    by (symmetry; apply N.ltb_ge; lia).
  replace (599 <? status response)%N with false
    by (symmetry; apply N.ltb_ge; lia).
  replace (null_body_status (status response)) with false; [reflexivity|].
  symmetry; unfold null_body_status.
  repeat (apply orb_false_intro); apply N.eqb_neq; lia.
Qed.

End HandlerFacts.

(** No credential, a POST: the diagnostic, 401 and no call. *)
Lemma missing_credential_unauthorized_witness :
  handleStream (NM := IntegerNumbers.model)
    (Examples.answers Examples.rate_limited) None
    (Examples.post Examples.body_plain) Examples.without_key =
  {| trace :=
       [ReadCredential;
        ConsoleError
          [AText (lit "[owr error]");
           AText (lit "Missing OpenRouter API key. Did you forget to set OPENROUTER_API_KEY in .dev.vars (for local dev) or with wrangler secret put OPENROUTER_API_KEY (for production)?")]];
     answer := Returns {| status := 401; headers := [];
                          body := Some (text_body (lit "Missing API key")) |} |}
  /\ upstream_calls
       (trace (handleStream (NM := IntegerNumbers.model)
                 (Examples.answers Examples.rate_limited) None
                 (Examples.post Examples.body_plain) Examples.without_key)) = [].
Proof.
  apply (@missing_credential_unauthorized IntegerNumbers.model
           (Examples.answers Examples.rate_limited) None
           (Examples.post Examples.body_plain) Examples.without_key).
  reflexivity.
Defined.

(** A GET is answered 405. *)
Lemma method_not_allowed_witness :
  answer (fetch (NM := IntegerNumbers.model)
            (Examples.answers Examples.rate_limited) None
            Examples.get_request Examples.with_key) =
  Returns {| status := 405; headers := [];
             body := Some (text_body (lit "Method not allowed")) |}.
Proof.
  rewrite (@method_not_allowed IntegerNumbers.model
             (Examples.answers Examples.rate_limited) None
             Examples.get_request Examples.with_key); [reflexivity|].
  discriminate.
Defined.

(** Upstream status 429 with body ["rate limited"]: the handler answers 429
    with a body that holds ["rate limited"]. *)
Lemma upstream_failure_relayed_witness :
  answer (handleStream (NM := IntegerNumbers.model)
            (Examples.answers Examples.rate_limited) None
            (Examples.post Examples.body_plain) Examples.with_key) =
  Returns {| status := 429; headers := [];
             body := Some (text_body (lit "OpenRouter API error: "
                                      ++ Examples.q "rate limited")) |}.
Proof.
  rewrite (@upstream_failure_relayed IntegerNumbers.model
             (Examples.answers Examples.rate_limited) None
             (Examples.post Examples.body_plain) Examples.with_key
             (lit "sk-test") (VObj [(lit "messages", VArr [])])
             [(lit "model", VStr MODEL); (lit "messages", VArr []);
              (lit "stream", VBool true)]
             Examples.rate_limited (Examples.q "rate limited"));
    try reflexivity; try discriminate.
  simpl; lia.
Defined.

(** C5 as stated fails: an upstream status of 304, which is no success, is
    not carried by the answer; the constructor refuses a body with it and
    the handler answers 500. *)
Lemma upstream_304_answered_500 :
  ok Examples.not_modified = false /\
  text Examples.not_modified = inl [] /\
  answer (handleStream (NM := IntegerNumbers.model)
            (Examples.answers Examples.not_modified) None
            (Examples.post Examples.body_plain) Examples.with_key) =
  Returns {| status := 500; headers := [];
             body := Some (text_body
                       (lit "Error making request to OpenRouter")) |}.
Proof. repeat split; reflexivity. Qed.

(** ** JSON.parse is total *)

Module JSONFacts.

Import JSON.

Section WithNumbers.

Context {NM : NumberModel}.

Lemma accept_Some (c : code_unit) (s r : jsstring) :
  accept c s = Some r -> s = c :: r.
Proof.
  destruct s as [|x s]; simpl; [discriminate|].
  destruct (N.eqb x c) eqn:E; [|discriminate].
  apply N.eqb_eq in E; intros [= ->]; subst; reflexivity.
Qed.

Lemma skip_ws_length (s : jsstring) :
  List.length (skip_ws s) <= List.length s.
Proof.
  induction s as [|c s IH]; simpl; [lia|].
  destruct (is_ws c); simpl; lia.
Qed.

Lemma cons_unit_Some (c : code_unit) (x : option (jsstring * jsstring))
  (t r : jsstring) :
  cons_unit c x = Some (t, r) -> exists t', x = Some (t', r) /\ t = c :: t'.
Proof.
  destruct x as [[t' r']|]; simpl; [|discriminate].
  intros [= <- <-]; eauto.
Qed.

Lemma parse_chars_length (s t r : jsstring) :
  parse_chars s = Some (t, r) -> List.length r < List.length s.
Proof.
  remember (List.length s) as n eqn:Hn.
  revert s t r Hn; induction n as [n IH] using lt_wf_ind.
  intros s t r Hn; destruct s as [|c s]; simpl; [discriminate|].
  destruct (N.eqb c DQUOTE); [intros [= <- <-]; simpl in Hn; lia|].
  destruct (N.eqb c BACKSLASH).
  - destruct s as [|e s]; [discriminate|].
    destruct (N.eqb e 117).
    + destruct s as [|h1 [|h2 [|h3 [|h4 s]]]]; try discriminate.
      destruct (hex4 h1 h2 h3 h4); [|discriminate].
      intros H; apply cons_unit_Some in H; destruct H as [t' [H _]].
      apply (IH (List.length s)) in H; simpl in *; lia.
    + destruct (simple_escape e); [|discriminate].
      intros H; apply cons_unit_Some in H; destruct H as [t' [H _]].
      apply (IH (List.length s)) in H; simpl in *; lia.
  - destruct (c <? 32)%N; [discriminate|].
    intros H; apply cons_unit_Some in H; destruct H as [t' [H _]].
    apply (IH (List.length s)) in H; simpl in *; lia.
Qed.

Lemma span_digits_app (s d r : jsstring) :
  span_digits s = (d, r) -> s = d ++ r.
Proof.
  revert d r; induction s as [|c s IH]; simpl; intros d r.
  - intros [= <- <-]; reflexivity.
  - destruct (is_digit c).
    + destruct (span_digits s) as [d' r']; intros [= <- <-].
      simpl; f_equal; apply IH; reflexivity.
    + intros [= <- <-]; reflexivity.
Qed.

Lemma lex_digits_app (s d r : jsstring) :
  lex_digits s = Some (d, r) -> s = d ++ r /\ d <> [].
Proof.
  unfold lex_digits; destruct (span_digits s) as [d' r'] eqn:E.
  destruct d'; [discriminate|]; intros [= <- <-].
  split; [apply span_digits_app; exact E | discriminate].
Qed.

Lemma lex_int_app (s i r : jsstring) :
  lex_int s = Some (i, r) -> s = i ++ r /\ i <> [].
Proof.
  destruct s as [|c s]; simpl; [discriminate|].
  destruct (N.eqb c 48).
  - intros [= <- <-]; split; [reflexivity | discriminate].
  - destruct (is_digit c); [|discriminate].
    destruct (span_digits s) as [d r'] eqn:E; intros [= <- <-].
    split; [simpl; f_equal; apply span_digits_app; exact E | discriminate].
Qed.

Lemma lex_frac_app (s f r : jsstring) :
  lex_frac s = Some (f, r) -> s = f ++ r.
Proof.
  unfold lex_frac; destruct (accept 46%N s) as [s'|] eqn:E.
  - apply accept_Some in E; subst s.
    destruct (lex_digits s') as [[d r']|] eqn:D; [|discriminate].
    intros [= <- <-]; simpl; f_equal; apply lex_digits_app; exact D.
  - intros [= <- <-]; reflexivity.
Qed.

Lemma lex_sign_app (s g r : jsstring) : lex_sign s = (g, r) -> s = g ++ r.
Proof.
  destruct s as [|c s]; simpl; [intros [= <- <-]; reflexivity|].
  destruct (is_sign c); intros [= <- <-]; reflexivity.
Qed.

Lemma lex_exp_app (s e r : jsstring) :
  lex_exp s = Some (e, r) -> s = e ++ r.
Proof.
  destruct s as [|c s]; simpl; [intros [= <- <-]; reflexivity|].
  destruct (is_exp_mark c); [|intros [= <- <-]; reflexivity].
  destruct (lex_sign s) as [g s1] eqn:G.
  destruct (lex_digits s1) as [[d r']|] eqn:D; [|discriminate].
  intros [= <- <-]; apply lex_sign_app in G; apply lex_digits_app in D.
  destruct D as [D _]; subst; simpl; rewrite <- app_assoc; reflexivity.
Qed.

Lemma lex_minus_app (s m r : jsstring) : lex_minus s = (m, r) -> s = m ++ r.
Proof.
  unfold lex_minus; destruct (accept 45%N s) as [s'|] eqn:E.
  - apply accept_Some in E; intros [= <- <-]; exact E.
  - intros [= <- <-]; reflexivity.
Qed.

(** A number literal is a non-empty head of the text. *)
Lemma lex_number_app (s t r : jsstring) :
  lex_number s = Some (t, r) -> s = t ++ r /\ t <> [].
Proof.
  unfold lex_number.
  destruct (lex_minus s) as [m s0] eqn:M.
  destruct (lex_int s0) as [[i s1]|] eqn:I; [|discriminate].
  destruct (lex_frac s1) as [[f s2]|] eqn:F; [|discriminate].
  destruct (lex_exp s2) as [[e s3]|] eqn:E; [|discriminate].
  intros [= <- <-].
  apply lex_minus_app in M; apply lex_int_app in I; destruct I as [I Hi].
  apply lex_frac_app in F; apply lex_exp_app in E; subst.
  split; [rewrite <- !app_assoc; reflexivity|].
  destruct m; [destruct i; [contradiction | discriminate] | discriminate].
Qed.

Lemma expect_length (word : jsstring) (v w : value) (s r : jsstring) :
  word <> [] -> expect word v s = Parsed w r ->
  List.length r < List.length s.
Proof.
  unfold expect; intros Hw.
  destruct (startsWith s word) eqn:E; [|discriminate].
  intros [= _ <-]; rewrite length_skipn.
  destruct word as [|x word]; [contradiction|].
  destruct s as [|y s]; [discriminate | simpl; lia].
Qed.

Lemma parse_scalar_length (c : code_unit) (s r : jsstring) (v : value) :
  parse_scalar c s = Parsed v r -> List.length r < S (List.length s).
Proof.
  unfold parse_scalar.
  destruct (N.eqb c DQUOTE).
  { destruct (parse_chars s) as [[t r']|] eqn:E; [|discriminate].
    intros [= _ <-]; apply parse_chars_length in E; lia. }
  destruct (N.eqb c 116);
    [intros H; apply expect_length in H; [exact H | discriminate]|].
  destruct (N.eqb c 102);
    [intros H; apply expect_length in H; [exact H | discriminate]|].
  destruct (N.eqb c 110);
    [intros H; apply expect_length in H; [exact H | discriminate]|].
  destruct (lex_number (c :: s)) as [[t r']|] eqn:E; [|discriminate].
  intros [= _ <-]; apply lex_number_app in E; destruct E as [E Ht].
  apply (f_equal (@List.length _)) in E; rewrite length_app in E.
  destruct t; [contradiction | simpl in E; lia].
Qed.

Lemma parse_scalar_fuel (c : code_unit) (s : jsstring) :
  parse_scalar c s <> OutOfFuel.
Proof.
  unfold parse_scalar, expect.
  repeat match goal with
         | |- context [if ?b then _ else _] => destruct b
         | |- context [match ?x with Some _ => _ | None => _ end] =>
           destruct x as [[? ?]|]
         end; discriminate.
Qed.

Lemma parse_key_length (s k r : jsstring) :
  parse_key s = Some (k, r) -> List.length r < List.length s.
Proof.
  unfold parse_key.
  destruct (accept DQUOTE (skip_ws s)) as [s1|] eqn:A; [|discriminate].
  destruct (parse_chars s1) as [[k' s2]|] eqn:C; [|discriminate].
  destruct (accept 58%N (skip_ws s2)) as [s3|] eqn:B; [|discriminate].
  intros [= _ <-].
  apply accept_Some in A; apply accept_Some in B; apply parse_chars_length in C.
  pose proof (skip_ws_length s) as H1; pose proof (skip_ws_length s2) as H2.
  rewrite A in H1; rewrite B in H2; simpl in *; lia.
Qed.

Lemma parse_value_S (f : nat) (s : jsstring) :
  parse_value (S f) s =
  match skip_ws s with
  | [] => SyntaxError
  | c :: s' =>
    if N.eqb c 123 then
      match accept 125%N (skip_ws s') with
      | Some r => Parsed (VObj []) r
      | None =>
        match parse_members f s' with
        | Parsed ms r => Parsed (VObj (obj_define_all [] ms)) r
        | SyntaxError => SyntaxError
        | OutOfFuel => OutOfFuel
        end
      end
    else if N.eqb c 91 then
      match accept 93%N (skip_ws s') with
      | Some r => Parsed (VArr []) r
      | None =>
        match parse_elements f s' with
        | Parsed vs r => Parsed (VArr vs) r
        | SyntaxError => SyntaxError
        | OutOfFuel => OutOfFuel
        end
      end
    else parse_scalar c s'
  end.
Proof. reflexivity. Qed.

Lemma parse_elements_S (f : nat) (s : jsstring) :
  parse_elements (S f) s =
  match parse_value f s with
  | Parsed v r =>
    match accept 44%N (skip_ws r) with
    | Some r' =>
      match parse_elements f r' with
      | Parsed vs r'' => Parsed (v :: vs) r''
      | SyntaxError => SyntaxError
      | OutOfFuel => OutOfFuel
      end
    | None =>
      match accept 93%N (skip_ws r) with
      | Some r' => Parsed [v] r'
      | None => SyntaxError
      end
    end
  | SyntaxError => SyntaxError
  | OutOfFuel => OutOfFuel
  end.
Proof. reflexivity. Qed.

Lemma parse_members_S (f : nat) (s : jsstring) :
  parse_members (S f) s =
  match parse_key s with
  | None => SyntaxError
  | Some (k, s3) =>
    match parse_value f s3 with
    | Parsed v r =>
      match accept 44%N (skip_ws r) with
      | Some r' =>
        match parse_members f r' with
        | Parsed ms r'' => Parsed ((k, v) :: ms) r''
        | SyntaxError => SyntaxError
        | OutOfFuel => OutOfFuel
        end
      | None =>
        match accept 125%N (skip_ws r) with
        | Some r' => Parsed [(k, v)] r'
        | None => SyntaxError
        end
      end
    | SyntaxError => SyntaxError
    | OutOfFuel => OutOfFuel
    end
  end.
Proof. reflexivity. Qed.

(** A parse consumes text: what is left is shorter than what was given. *)
Lemma parse_length (f : nat) :
  (forall s v r, parse_value f s = Parsed v r ->
                 List.length r < List.length s) /\
  (forall s vs r, parse_elements f s = Parsed vs r ->
                  List.length r < List.length s) /\
  (forall s ms r, parse_members f s = Parsed ms r ->
                  List.length r < List.length s).
Proof.
  induction f as [|f [IHv [IHe IHm]]];
    [repeat split; intros; discriminate|].
  assert (Hsep : forall c r r', accept c (skip_ws r) = Some r' ->
                                List.length r' < List.length r).
  { intros c r r' H; apply accept_Some in H.
    pose proof (skip_ws_length r) as L; rewrite H in L; simpl in L; lia. }
  split; [|split]; intros s.
  - intros v r; rewrite parse_value_S.
    pose proof (skip_ws_length s) as L.
    destruct (skip_ws s) as [|c s']; [discriminate|]; simpl in L.
    destruct (N.eqb c 123).
    { destruct (accept 125%N (skip_ws s')) as [r0|] eqn:A.
      - intros [= _ <-]; apply Hsep in A; lia.
      - destruct (parse_members f s') as [ms r0| |] eqn:M; try discriminate.
        intros [= _ <-]; apply IHm in M; lia. }
    destruct (N.eqb c 91).
    { destruct (accept 93%N (skip_ws s')) as [r0|] eqn:A.
      - intros [= _ <-]; apply Hsep in A; lia.
      - destruct (parse_elements f s') as [vs r0| |] eqn:M; try discriminate.
        intros [= _ <-]; apply IHe in M; lia. }
    intros H; apply parse_scalar_length in H; lia.
  - intros vs r; rewrite parse_elements_S.
    destruct (parse_value f s) as [v r0| |] eqn:V; try discriminate.
    apply IHv in V.
    destruct (accept 44%N (skip_ws r0)) as [r1|] eqn:A.
    + apply Hsep in A.
      destruct (parse_elements f r1) as [vs' r2| |] eqn:E; try discriminate.
      intros [= _ <-]; apply IHe in E; lia.
    + destruct (accept 93%N (skip_ws r0)) as [r1|] eqn:B; [|discriminate].
      intros [= _ <-]; apply Hsep in B; lia.
  - intros ms r; rewrite parse_members_S.
    destruct (parse_key s) as [[k s3]|] eqn:K; [|discriminate].
    apply parse_key_length in K.
    destruct (parse_value f s3) as [v r0| |] eqn:V; try discriminate.
    apply IHv in V.
    destruct (accept 44%N (skip_ws r0)) as [r1|] eqn:A.
    + apply Hsep in A.
      destruct (parse_members f r1) as [ms' r2| |] eqn:E; try discriminate.
      intros [= _ <-]; apply IHm in E; lia.
    + destruct (accept 125%N (skip_ws r0)) as [r1|] eqn:B; [|discriminate].
      intros [= _ <-]; apply Hsep in B; lia.
Qed.

(** Twice the length of the text is fuel enough. *)
Lemma parse_fuel (f : nat) :
  (forall s, 2 * List.length s + 1 <= f -> parse_value f s <> OutOfFuel) /\
  (forall s, 2 * List.length s + 2 <= f -> parse_elements f s <> OutOfFuel) /\
  (forall s, 2 * List.length s + 2 <= f -> parse_members f s <> OutOfFuel).
Proof.
  induction f as [|f [IHv [IHe IHm]]]; [repeat split; intros; lia|].
  destruct (parse_length f) as [Lv [Le Lm]].
  assert (Hsep : forall c r r', accept c (skip_ws r) = Some r' ->
                                List.length r' < List.length r).
  { intros c r r' H; apply accept_Some in H.
    pose proof (skip_ws_length r) as L; rewrite H in L; simpl in L; lia. }
  split; [|split]; intros s Hf.
  - rewrite parse_value_S.
    pose proof (skip_ws_length s) as L.
    destruct (skip_ws s) as [|c s']; [discriminate|]; simpl in L.
    destruct (N.eqb c 123).
    { destruct (accept 125%N (skip_ws s')); [discriminate|].
      specialize (IHm s'); destruct (parse_members f s'); try discriminate.
      intros _; apply IHm; [lia | reflexivity]. }
    destruct (N.eqb c 91).
    { destruct (accept 93%N (skip_ws s')); [discriminate|].
      specialize (IHe s'); destruct (parse_elements f s'); try discriminate.
      intros _; apply IHe; [lia | reflexivity]. }
    apply parse_scalar_fuel.
  - rewrite parse_elements_S.
    specialize (IHv s).
    destruct (parse_value f s) as [v r0| |] eqn:V;
      [|discriminate | intros _; apply IHv; [lia | reflexivity]].
    apply Lv in V.
    destruct (accept 44%N (skip_ws r0)) as [r1|] eqn:A.
    + apply Hsep in A; specialize (IHe r1).
      destruct (parse_elements f r1); try discriminate.
      intros _; apply IHe; [lia | reflexivity].
    + destruct (accept 93%N (skip_ws r0)); discriminate.
  - rewrite parse_members_S.
    destruct (parse_key s) as [[k s3]|] eqn:K; [|discriminate].
    apply parse_key_length in K; specialize (IHv s3).
    destruct (parse_value f s3) as [v r0| |] eqn:V;
      [|discriminate | intros _; apply IHv; [lia | reflexivity]].
    apply Lv in V.
    destruct (accept 44%N (skip_ws r0)) as [r1|] eqn:A.
    + apply Hsep in A; specialize (IHm r1).
      destruct (parse_members f r1); try discriminate.
      intros _; apply IHm; [lia | reflexivity].
    + destruct (accept 125%N (skip_ws r0)); discriminate.
Qed.

(** [JSON.parse] always answers: a value or a SyntaxError, never for want
    of fuel. *)
Lemma parse_text_total (s : jsstring) : parse_text s <> OutOfFuel.
Proof.
  unfold parse_text.
  pose proof (proj1 (parse_fuel (enough_fuel s)) s) as H.
  destruct (parse_value (enough_fuel s) s) as [v r| |].
  - destruct (skip_ws r); discriminate.
  - discriminate.
  - exfalso; apply H; [unfold enough_fuel; lia | reflexivity].
Qed.

Lemma parse_None_SyntaxError (s : jsstring) :
  parse s = None <-> parse_text s = SyntaxError.
Proof.
  unfold parse; pose proof (parse_text_total s) as H.
  destruct (parse_text s); split; try discriminate; try reflexivity.
  contradiction.
Qed.

(** More fuel changes no answer. *)
Lemma parse_more_fuel (f : nat) :
  (forall s, parse_value f s <> OutOfFuel ->
             parse_value (S f) s = parse_value f s) /\
  (forall s, parse_elements f s <> OutOfFuel ->
             parse_elements (S f) s = parse_elements f s) /\
  (forall s, parse_members f s <> OutOfFuel ->
             parse_members (S f) s = parse_members f s).
Proof.
  induction f as [|f [IHv [IHe IHm]]];
    [repeat split; intros s H; exfalso; apply H; reflexivity|].
  split; [|split]; intros s.
  - rewrite (parse_value_S (S f)), (parse_value_S f).
    destruct (skip_ws s) as [|c s']; [reflexivity|].
    destruct (N.eqb c 123).
    { destruct (accept 125%N (skip_ws s')); [reflexivity|].
      intros H; rewrite IHm; [reflexivity|].
      destruct (parse_members f s'); try discriminate.
      exfalso; apply H; reflexivity. }
    destruct (N.eqb c 91); [|reflexivity].
    destruct (accept 93%N (skip_ws s')); [reflexivity|].
    intros H; rewrite IHe; [reflexivity|].
    destruct (parse_elements f s'); try discriminate.
    exfalso; apply H; reflexivity.
  - rewrite (parse_elements_S (S f)), (parse_elements_S f).
    intros H.
    assert (Hv : parse_value f s <> OutOfFuel)
      by (destruct (parse_value f s); try discriminate;
          exfalso; apply H; reflexivity).
    rewrite (IHv _ Hv).
    destruct (parse_value f s) as [v r0| |]; try reflexivity.
    destruct (accept 44%N (skip_ws r0)) as [r1|]; [|reflexivity].
    rewrite IHe; [reflexivity|].
    destruct (parse_elements f r1); try discriminate.
    exfalso; apply H; reflexivity.
  - rewrite (parse_members_S (S f)), (parse_members_S f).
    destruct (parse_key s) as [[k s3]|]; [|reflexivity].
    intros H.
    assert (Hv : parse_value f s3 <> OutOfFuel)
      by (destruct (parse_value f s3); try discriminate;
          exfalso; apply H; reflexivity).
    rewrite (IHv _ Hv).
    destruct (parse_value f s3) as [v r0| |]; try reflexivity.
    destruct (accept 44%N (skip_ws r0)) as [r1|]; [|reflexivity].
    rewrite IHm; [reflexivity|].
    destruct (parse_members f r1); try discriminate.
    exfalso; apply H; reflexivity.
Qed.

Lemma parse_value_fuel_le (f g : nat) (s : jsstring) :
  f <= g -> parse_value f s <> OutOfFuel -> parse_value g s = parse_value f s.
Proof.
  intros Hle H; induction Hle as [|g Hle IH]; [reflexivity|].
  rewrite <- IH; apply (proj1 (parse_more_fuel g)); rewrite IH; exact H.
Qed.

(** A parse that succeeds with some fuel is the parse of the text. *)
Lemma parse_value_any_fuel (f : nat) (s : jsstring) (v : value) (r : jsstring) :
  parse_value f s = Parsed v r -> parse_value (enough_fuel s) s = Parsed v r.
Proof.
  intros H.
  pose proof (proj1 (parse_fuel (enough_fuel s)) s (Nat.le_refl _)) as He.
  destruct (Nat.le_ge_cases f (enough_fuel s)) as [Hle|Hge].
  - rewrite (parse_value_fuel_le s Hle); [exact H | rewrite H; discriminate].
  - rewrite <- (parse_value_fuel_le s Hge He); exact H.
Qed.

(** A parsed value is never [undefined]: [JSON.stringify] prints it, and
    the template literal of line 130 never prints the word. *)
Lemma parse_value_defined (f : nat) (s : jsstring) (v : value) (r : jsstring) :
  parse_value f s = Parsed v r -> exists t, stringify v = Some t.
Proof.
  destruct f as [|f]; [discriminate|]; rewrite parse_value_S.
  destruct (skip_ws s) as [|c s']; [discriminate|].
  destruct (N.eqb c 123).
  { destruct (accept 125%N (skip_ws s')); [intros [= <- _]; simpl; eauto|].
    destruct (parse_members f s'); try discriminate.
    intros [= <- _]; simpl; eauto. }
  destruct (N.eqb c 91).
  { destruct (accept 93%N (skip_ws s')); [intros [= <- _]; simpl; eauto|].
    destruct (parse_elements f s'); try discriminate.
    intros [= <- _]; simpl; eauto. }
  unfold parse_scalar, expect.
  repeat match goal with
         | |- context [if ?b then _ else _] => destruct b
         | |- context [match ?x with Some _ => _ | None => _ end] =>
           destruct x as [[? ?]|]
         end; try discriminate; intros [= <- _]; simpl; eauto.
Qed.

Lemma parse_defined (s : jsstring) (v : value) :
  parse s = Some v -> exists t, stringify v = Some t.
Proof.
  unfold parse, parse_text.
  destruct (parse_value (enough_fuel s) s) as [w r| |] eqn:E; try discriminate.
  destruct (skip_ws r); [|discriminate].
  intros [= <-]; apply (parse_value_defined _ _ E).
Qed.

End WithNumbers.

End JSONFacts.

(** ** The streaming flag *)

(** C1, at the body [{"messages":[],"stream":false}]: the rest of the body
    is spread after [stream: true], so the inbound [stream] replaces it;
    the payload has [stream: false] and that is what is sent upstream. *)
Theorem inbound_stream_replaces_flag {NM : NumberModel}
  (upstream : jsstring -> jsstring -> list (jsstring * jsstring) ->
              option jsstring -> fetch_outcome)
  (client : option nat) :
  JSON.parse Examples.body_stream_false =
  Some (VObj [(lit "messages", VArr []); (lit "stream", VBool false)]) /\
  buildPayload (VObj [(lit "messages", VArr []); (lit "stream", VBool false)]) =
  Some [(lit "model", VStr MODEL); (lit "messages", VArr []);
        (lit "stream", VBool false)] /\
  upstream_calls
    (trace (fetch upstream client (Examples.post Examples.body_stream_false)
              Examples.with_key)) =
  [Fetch OPENROUTER_URL (lit "POST")
     (upstream_headers (lit "sk-test")
        (Examples.post Examples.body_stream_false))
     (Some (lit "{" ++ Examples.q "model" ++ lit ":"
            ++ Examples.q "google/gemini-2.0-pro-exp-02-05:free" ++ lit ","
            ++ Examples.q "messages" ++ lit ":[],"
            ++ Examples.q "stream" ++ lit ":false}"))].
Proof.
  split; [reflexivity|]; split; [reflexivity|].
  unfold fetch; simpl negb; cbv iota.
  rewrite (@handleStream_calls_once NM upstream client
             (Examples.post Examples.body_stream_false) Examples.with_key
             (lit "sk-test")
             (VObj [(lit "messages", VArr []); (lit "stream", VBool false)])
             [(lit "model", VStr MODEL); (lit "messages", VArr []);
              (lit "stream", VBool false)]);
    try reflexivity.
  discriminate.
Qed.

(** ** JSON.parse after JSON.stringify *)

Module RoundTrip.

Import JSON JSONFacts.

Section WithNumbers.

Context {NM : NumberModel}.

Lemma delimited_head (rest : jsstring) :
  delimited rest = true ->
  match rest with
  | [] => True
  | c :: _ => is_digit c = false /\ N.eqb c 46 = false /\
              is_exp_mark c = false /\ is_ws c = false /\
              (c = 44 \/ c = 93 \/ c = 125)%N
  end.
Proof.
  destruct rest as [|c rest]; simpl; [trivial|].
  rewrite !orb_true_iff, !N.eqb_eq.
  intros [[->| ->]| ->]; repeat split; auto.
Qed.

Lemma span_digits_more (s d r rest : jsstring) :
  span_digits s = (d, r) ->
  r <> [] \/ match rest with [] => True | c :: _ => is_digit c = false end ->
  span_digits (s ++ rest) = (d, r ++ rest).
Proof.
  revert d r; induction s as [|c s IH]; simpl; intros d r.
  - intros [= <- <-] [H|H]; [contradiction|].
    destruct rest as [|c rest]; simpl; [reflexivity | rewrite H; reflexivity].
  - destruct (is_digit c).
    + destruct (span_digits s) as [d' r'] eqn:E; intros [= <- <-] H.
      rewrite (IH d' r' eq_refl H); reflexivity.
    + intros [= <- <-] _; reflexivity.
Qed.

Lemma lex_digits_more (s d r rest : jsstring) :
  lex_digits s = Some (d, r) ->
  r <> [] \/ match rest with [] => True | c :: _ => is_digit c = false end ->
  lex_digits (s ++ rest) = Some (d, r ++ rest).
Proof.
  unfold lex_digits; destruct (span_digits s) as [d' r'] eqn:E.
  destruct d' as [|x d']; [discriminate|]; intros [= <- <-] H.
  rewrite (@span_digits_more _ _ _ _ E H); reflexivity.
Qed.

Lemma lex_int_more (s i r rest : jsstring) :
  lex_int s = Some (i, r) ->
  r <> [] \/ match rest with [] => True | c :: _ => is_digit c = false end ->
  lex_int (s ++ rest) = Some (i, r ++ rest).
Proof.
  destruct s as [|c s]; simpl; [discriminate|].
  destruct (N.eqb c 48); [intros [= <- <-] _; reflexivity|].
  destruct (is_digit c); [|discriminate].
  destruct (span_digits s) as [d r'] eqn:E; intros [= <- <-] H.
  rewrite (@span_digits_more _ _ _ _ E H); reflexivity.
Qed.

Lemma lex_frac_more (s f r rest : jsstring) :
  lex_frac s = Some (f, r) ->
  r <> [] \/ match rest with
             | [] => True
             | c :: _ => is_digit c = false /\ N.eqb c 46 = false
             end ->
  lex_frac (s ++ rest) = Some (f, r ++ rest).
Proof.
  unfold lex_frac; destruct s as [|c s]; simpl.
  - intros [= <- <-] [H|H]; [contradiction|].
    destruct rest as [|c rest]; simpl; [reflexivity|].
    destruct H as [_ ->]; reflexivity.
  - destruct (N.eqb c 46); [|intros [= <- <-] _; reflexivity].
    destruct (lex_digits s) as [[d r']|] eqn:E; [|discriminate].
    intros [= <- <-] H.
    rewrite (@lex_digits_more _ _ _ rest E); [reflexivity|].
    destruct H as [H|H]; [left; exact H | right].
    destruct rest; [trivial | tauto].
Qed.

Lemma lex_sign_more (s g r rest : jsstring) :
  lex_sign s = (g, r) -> s <> [] -> lex_sign (s ++ rest) = (g, r ++ rest).
Proof.
  destruct s as [|c s]; simpl; [contradiction|].
  destruct (is_sign c); intros [= <- <-] _; reflexivity.
Qed.

Lemma lex_exp_more (s e r rest : jsstring) :
  lex_exp s = Some (e, r) ->
  r <> [] \/ match rest with
             | [] => True
             | c :: _ => is_digit c = false /\ is_exp_mark c = false
             end ->
  lex_exp (s ++ rest) = Some (e, r ++ rest).
Proof.
  destruct s as [|c s]; simpl.
  - intros [= <- <-] [H|H]; [contradiction|].
    destruct rest as [|c rest]; simpl; [reflexivity|].
    destruct H as [_ ->]; reflexivity.
  - destruct (is_exp_mark c); [|intros [= <- <-] _; reflexivity].
    destruct (lex_sign s) as [g s1] eqn:G.
    destruct (lex_digits s1) as [[d r']|] eqn:D; [|discriminate].
    intros [= <- <-] H.
    assert (Hs : s <> []).
    { intros ->; simpl in G; injection G as <- <-; discriminate. }
    rewrite (@lex_sign_more _ _ _ rest G Hs).
    rewrite (@lex_digits_more _ _ _ rest D); [reflexivity|].
    destruct H as [H|H]; [left; exact H | right].
    destruct rest; [trivial | tauto].
Qed.

Lemma lex_minus_more (s m r rest : jsstring) :
  lex_minus s = (m, r) -> s <> [] -> lex_minus (s ++ rest) = (m, r ++ rest).
Proof.
  unfold lex_minus; destruct s as [|c s]; simpl; [contradiction|].
  destruct (N.eqb c 45); intros [= <- <-] _; reflexivity.
Qed.

(** A number literal is read the same before a delimiter. *)
Lemma lex_number_more (s rest : jsstring) :
  lex_number s = Some (s, []) -> delimited rest = true ->
  lex_number (s ++ rest) = Some (s, rest).
Proof.
  intros H Hd; apply delimited_head in Hd.
  assert (Hrest : forall r : jsstring,
            r <> [] \/ match rest with
                       | [] => True
                       | c :: _ => is_digit c = false /\ N.eqb c 46 = false
                                   /\ is_exp_mark c = false
                       end).
  { intros r; right; destruct rest; [trivial | tauto]. }
  unfold lex_number in *.
  destruct (lex_minus s) as [m s0] eqn:M.
  destruct (lex_int s0) as [[i s1]|] eqn:I; [|discriminate].
  destruct (lex_frac s1) as [[f s2]|] eqn:F; [|discriminate].
  destruct (lex_exp s2) as [[e s3]|] eqn:E; [|discriminate].
  injection H as Ht Hs3; subst s3.
  assert (Hs : s <> []).
  { intros ->; unfold lex_minus in M; simpl in M; injection M as <- <-.
    discriminate. }
  rewrite (@lex_minus_more _ _ _ rest M Hs).
  rewrite (@lex_int_more _ _ _ rest I)
    by (destruct (Hrest s1) as [H|H]; [left; exact H | right;
        destruct rest; [trivial | tauto]]).
  rewrite (@lex_frac_more _ _ _ rest F)
    by (destruct (Hrest s2) as [H|H]; [left; exact H | right;
        destruct rest; [trivial | tauto]]).
  rewrite (@lex_exp_more _ _ _ rest E)
    by (right; destruct rest; [trivial | tauto]).
  rewrite Ht; reflexivity.
Qed.

(** A number literal starts with a minus sign or a digit. *)
Lemma lex_number_head (s r : jsstring) :
  lex_number s = Some (s, r) ->
  exists c s', s = c :: s' /\ (c = 45%N \/ is_digit c = true).
Proof.
  unfold lex_number, lex_minus; destruct s as [|c s]; simpl; [discriminate|].
  intros H; exists c, s; split; [reflexivity|].
  destruct (N.eqb c 45) eqn:E; [left; apply N.eqb_eq; exact E | right].
  simpl in H. destruct (N.eqb c 48) eqn:Z.
  - apply N.eqb_eq in Z; subst; reflexivity.
  - destruct (is_digit c); [reflexivity | discriminate].
Qed.

Lemma hex_value_digit (n : N) : (n < 16)%N -> hex_value (hex_digit n) = Some n.
Proof.
  intros H; unfold hex_value, hex_digit, is_digit.
  destruct (N.ltb_spec n 10) as [L|L].
  - replace ((48 <=? 48 + n) && (48 + n <=? 57))%N with true
      by (symmetry; apply andb_true_iff; split; apply N.leb_le; lia).
    f_equal; lia.
  - replace ((48 <=? 87 + n) && (87 + n <=? 57))%N with false
      by (symmetry; apply andb_false_iff; right; apply N.leb_gt; lia).
    replace ((97 <=? 87 + n) && (87 + n <=? 102))%N with true
      by (symmetry; apply andb_true_iff; split; apply N.leb_le; lia).
    f_equal; lia.
Qed.

Lemma nibbles (c : N) :
  (c < 65536)%N ->
  (4096 * ((c / 4096) mod 16) + 256 * ((c / 256) mod 16)
   + 16 * ((c / 16) mod 16) + c mod 16 = c)%N.
Proof.
  intros H.
  pose proof (N.div_mod c 16 ltac:(discriminate)) as E0.
  pose proof (N.div_mod (c / 16) 16 ltac:(discriminate)) as E1.
  pose proof (N.div_mod (c / 256) 16 ltac:(discriminate)) as E2.
  pose proof (N.div_mod (c / 4096) 16 ltac:(discriminate)) as E3.
  replace (c / 16 / 16)%N with (c / 256)%N in E1
    by (rewrite N.Div0.div_div; reflexivity).
  replace (c / 256 / 16)%N with (c / 4096)%N in E2
    by (rewrite N.Div0.div_div; reflexivity).
  replace (c / 4096 / 16)%N with (c / 65536)%N in E3
    by (rewrite N.Div0.div_div; reflexivity).
  rewrite (N.div_small c 65536 H) in E3.
  lia.
Qed.

(** The four hexadecimal digits of an escape give the unit back. *)
Lemma hex4_escape (c : code_unit) :
  (c < 65536)%N ->
  hex4 (hex_digit (N.land (N.shiftr c 12) 15))
       (hex_digit (N.land (N.shiftr c 8) 15))
       (hex_digit (N.land (N.shiftr c 4) 15))
       (hex_digit (N.land c 15)) = Some c.
Proof.
  intros H; unfold hex4.
  change 15%N with (N.ones 4); rewrite !N.land_ones, !N.shiftr_div_pow2.
  change (2 ^ 12)%N with 4096%N; change (2 ^ 8)%N with 256%N;
    change (2 ^ 4)%N with 16%N.
  rewrite !hex_value_digit by (apply N.mod_lt; discriminate).
  f_equal; apply nibbles; exact H.
Qed.

Lemma parse_chars_plain (c : code_unit) (more : jsstring) :
  N.eqb c DQUOTE = false -> N.eqb c BACKSLASH = false -> (c <? 32)%N = false ->
  parse_chars (c :: more) = cons_unit c (parse_chars more).
Proof. intros H1 H2 H3; simpl; rewrite H1, H2, H3; reflexivity. Qed.

Lemma parse_chars_escape (c : code_unit) (more : jsstring) :
  (c < 65536)%N ->
  parse_chars (unicode_escape c ++ more) = cons_unit c (parse_chars more).
Proof.
  intros H; unfold unicode_escape.
  change (parse_chars (?a ++ more)) with
    (match hex4 (hex_digit (N.land (N.shiftr c 12) 15))
                (hex_digit (N.land (N.shiftr c 8) 15))
                (hex_digit (N.land (N.shiftr c 4) 15))
                (hex_digit (N.land c 15)) with
     | Some u => cons_unit u (parse_chars more)
     | None => None
     end).
  rewrite hex4_escape by exact H; reflexivity.
Qed.

(** One quoted unit is read back as that unit. *)
Lemma parse_chars_quote_unit (c : code_unit) (more : jsstring) :
  (c < 65536)%N ->
  parse_chars (quote_unit c ++ more) = cons_unit c (parse_chars more).
Proof.
  intros H; unfold quote_unit.
  destruct (N.eqb c 8) eqn:E1; [apply N.eqb_eq in E1; subst; reflexivity|].
  destruct (N.eqb c 9) eqn:E2; [apply N.eqb_eq in E2; subst; reflexivity|].
  destruct (N.eqb c 10) eqn:E3; [apply N.eqb_eq in E3; subst; reflexivity|].
  destruct (N.eqb c 12) eqn:E4; [apply N.eqb_eq in E4; subst; reflexivity|].
  destruct (N.eqb c 13) eqn:E5; [apply N.eqb_eq in E5; subst; reflexivity|].
  destruct (N.eqb c DQUOTE) eqn:E6;
    [apply N.eqb_eq in E6; subst; reflexivity|].
  destruct (N.eqb c BACKSLASH) eqn:E7;
    [apply N.eqb_eq in E7; subst; reflexivity|].
  destruct ((c <? 32)%N || is_high_surrogate c || is_low_surrogate c) eqn:E8.
  - apply parse_chars_escape; exact H.
  - apply orb_false_iff in E8; destruct E8 as [E8 _].
    apply orb_false_iff in E8; destruct E8 as [E8 _].
    apply parse_chars_plain; assumption.
Qed.

Lemma surrogate_plain (c : code_unit) :
  is_high_surrogate c = true \/ is_low_surrogate c = true ->
  N.eqb c DQUOTE = false /\ N.eqb c BACKSLASH = false /\ (c <? 32)%N = false.
Proof.
  unfold is_high_surrogate, is_low_surrogate, DQUOTE, BACKSLASH.
  rewrite !andb_true_iff, !N.leb_le.
  intros H; repeat split;
    try (apply N.eqb_neq; lia); apply N.ltb_ge; lia.
Qed.

(** A quoted string is read back as the string. *)
Lemma parse_chars_quote (s rest : jsstring) :
  all_units s = true ->
  parse_chars (quote_units s ++ DQUOTE :: rest) = Some (s, rest).
Proof.
  remember (List.length s) as n eqn:Hn.
  revert s Hn; induction n as [n IH] using lt_wf_ind; intros s Hn Hu.
  destruct s as [|c s]; [reflexivity|].
  unfold all_units in Hu; simpl in Hu; apply andb_true_iff in Hu.
  destruct Hu as [Hc Hs]; apply N.ltb_lt in Hc.
  assert (Hrec : parse_chars (quote_unit c ++ quote_units s ++ DQUOTE :: rest)
                 = Some (c :: s, rest)).
  { rewrite parse_chars_quote_unit by exact Hc.
    rewrite (IH (List.length s)); [reflexivity | simpl in Hn; lia
                                   | reflexivity | exact Hs]. }
  simpl quote_units; destruct (is_high_surrogate c) eqn:Hh.
  - destruct s as [|d s].
    + rewrite parse_chars_quote_unit by exact Hc; reflexivity.
    + destruct (is_low_surrogate d) eqn:Hl.
      * simpl in Hs; apply andb_true_iff in Hs; destruct Hs as [_ Hs].
        destruct (surrogate_plain c (or_introl Hh)) as [A1 [A2 A3]].
        destruct (surrogate_plain d (or_intror Hl)) as [B1 [B2 B3]].
        simpl app; rewrite parse_chars_plain by assumption.
        rewrite parse_chars_plain by assumption.
        rewrite (IH (List.length s)); [reflexivity | simpl in Hn; lia
                                       | reflexivity | exact Hs].
      * rewrite <- app_assoc; exact Hrec.
  - rewrite <- app_assoc; exact Hrec.
Qed.

Lemma value_induction (P : value -> Prop) :
  P VUndefined -> P VNull -> (forall b, P (VBool b)) ->
  (forall x, P (VNum x)) -> (forall s, P (VStr s)) ->
  (forall l, Forall P l -> P (VArr l)) ->
  (forall ps, Forall (fun kv => P (snd kv)) ps -> P (VObj ps)) ->
  forall v, P v.
Proof.
  intros HU HN HB HX HS HA HO.
  fix rec 1; intros [| |b|x|s|l|ps].
  - exact HU.
  - exact HN.
  - apply HB.
  - apply HX.
  - apply HS.
  - apply HA.
    exact ((fix all (l : list value) : Forall P l :=
              match l with
              | [] => Forall_nil P
              | e :: l' => Forall_cons e (rec e) (all l')
              end) l).
  - apply HO.
    exact ((fix all (ps : list (jsstring * value))
              : Forall (fun kv => P (snd kv)) ps :=
              match ps with
              | [] => Forall_nil _
              | kv :: ps' => Forall_cons kv (rec (snd kv)) (all ps')
              end) ps).
Qed.

Lemma parse_elements_fuel_le (f g : nat) (s : jsstring) :
  f <= g -> parse_elements f s <> OutOfFuel ->
  parse_elements g s = parse_elements f s.
Proof.
  intros Hle H; induction Hle as [|g Hle IH]; [reflexivity|].
  rewrite <- IH; apply (proj1 (proj2 (parse_more_fuel g))); rewrite IH; exact H.
Qed.

Lemma parse_members_fuel_le (f g : nat) (s : jsstring) :
  f <= g -> parse_members f s <> OutOfFuel ->
  parse_members g s = parse_members f s.
Proof.
  intros Hle H; induction Hle as [|g Hle IH]; [reflexivity|].
  rewrite <- IH; apply (proj2 (proj2 (parse_more_fuel g))); rewrite IH; exact H.
Qed.

Lemma obj_insert_index_last (pre : properties) (i : N) (k : jsstring) (v : value) :
  forallb (fun kv => match array_index (fst kv) with
                     | Some j => (j <? i)%N
                     | None => false
                     end) pre = true ->
  obj_insert_index pre i k v = pre ++ [(k, v)].
Proof.
  induction pre as [|[k' v'] pre IH]; simpl; [reflexivity|].
  destruct (array_index k') as [j|]; [|discriminate].
  intros H; apply andb_true_iff in H; destruct H as [Hj H].
  apply N.ltb_lt in Hj.
  replace (i <? j)%N with false by (symmetry; apply N.ltb_ge; lia).
  rewrite IH by exact H; reflexivity.
Qed.

Lemma obj_define_appendable (pre : properties) (k : jsstring) (v : value) :
  appendable pre k = true -> obj_define pre k v = pre ++ [(k, v)].
Proof.
  unfold appendable, obj_define; intros H.
  apply andb_true_iff in H; destruct H as [Hn H].
  apply negb_true_iff in Hn; rewrite Hn.
  destruct (array_index k); [apply obj_insert_index_last; exact H | reflexivity].
Qed.

(** Properties in order are defined one after the other as they stand. *)
Lemma obj_define_all_in_order (ps pre : properties) :
  in_property_order pre ps = true -> obj_define_all pre ps = pre ++ ps.
Proof.
  unfold obj_define_all; revert pre.
  induction ps as [|[k v] ps IH]; intros pre; simpl;
    [rewrite app_nil_r; reflexivity|].
  intros H; apply andb_true_iff in H; destruct H as [Ha H].
  rewrite obj_define_appendable by exact Ha.
  rewrite IH by exact H; rewrite <- app_assoc; reflexivity.
Qed.

Lemma canonical_elements (l : list value) :
  canonical (VArr l) -> Forall canonical l.
Proof.
  induction l as [|e l IH]; simpl; [constructor|].
  intros [He Hl]; constructor; [exact He | apply IH; exact Hl].
Qed.

Lemma canonical_members (ps : properties) :
  canonical (VObj ps) ->
  in_property_order [] ps = true /\
  Forall (fun kv => all_units (fst kv) = true /\ canonical (snd kv)) ps.
Proof.
  simpl; intros [Ho H]; split; [exact Ho|]; clear Ho.
  induction ps as [|kv ps IH]; [constructor|].
  destruct H as [Hk [He H]]; constructor; [split; assumption | apply IH; exact H].
Qed.

Lemma parse_elements_join (l : list value) (rest : jsstring) :
  l <> [] -> Forall reads_back l ->
  exists f,
    parse_elements f (join [44%N] (map element_text l) ++ 93%N :: rest)
    = Parsed l rest.
Proof.
  induction l as [|e l IH]; [contradiction|]; intros _ Hall.
  inversion Hall as [|? ? He Hl]; subst.
  destruct He as [t [c [t' [Hser [Ht [Hws [H93 Hparse]]]]]]].
  assert (Htext : element_text e = t) by (unfold element_text; rewrite Hser; reflexivity).
  destruct l as [|e2 l].
  - destruct (Hparse (93%N :: rest) eq_refl) as [f Hf].
    exists (S f); rewrite parse_elements_S; simpl join; rewrite Htext, Hf.
    reflexivity.
  - destruct (IH ltac:(discriminate) Hl) as [f2 Hf2].
    set (more := join [44%N] (map element_text (e2 :: l)) ++ 93%N :: rest) in *.
    destruct (Hparse (44%N :: more) eq_refl) as [f1 Hf1].
    exists (S (Nat.max f1 f2)); rewrite parse_elements_S.
    replace (join [44%N] (map element_text (e :: e2 :: l)) ++ 93%N :: rest)
      with (t ++ 44%N :: more)
      by (unfold more; simpl; rewrite Htext, <- !app_assoc; reflexivity).
    rewrite (@parse_value_fuel_le _ f1) by (try lia; rewrite Hf1; discriminate).
    rewrite Hf1; simpl skip_ws; simpl accept; cbv beta iota.
    rewrite (@parse_elements_fuel_le f2) by (try lia; rewrite Hf2; discriminate).
    rewrite Hf2; reflexivity.
Qed.

Lemma parse_key_quote (k more : jsstring) :
  all_units k = true -> parse_key (quote k ++ 58%N :: more) = Some (k, more).
Proof.
  intros Hk; unfold parse_key, quote.
  replace ((DQUOTE :: quote_units k ++ [DQUOTE]) ++ 58%N :: more)
    with (DQUOTE :: quote_units k ++ DQUOTE :: 58%N :: more)
    by (simpl; rewrite <- app_assoc; reflexivity).
  simpl skip_ws; simpl accept; cbv beta iota.
  rewrite parse_chars_quote by exact Hk; reflexivity.
Qed.

Lemma omit_none_members (ps : properties) :
  Forall (fun kv => all_units (fst kv) = true /\ reads_back (snd kv)) ps ->
  omit_none (map member_text ps)
  = map (fun kv => quote (fst kv) ++ 58%N :: element_text (snd kv)) ps.
Proof.
  induction 1 as [|kv ps [_ Hr] _ IH]; [reflexivity|].
  destruct Hr as [t [c [t' [Hser _]]]].
  unfold omit_none in *; simpl; rewrite IH.
  unfold member_text, element_text; rewrite Hser; reflexivity.
Qed.

Lemma parse_members_join (ps : properties) (rest : jsstring) :
  ps <> [] ->
  Forall (fun kv => all_units (fst kv) = true /\ reads_back (snd kv)) ps ->
  exists f,
    parse_members f
      (join [44%N]
         (map (fun kv => quote (fst kv) ++ 58%N :: element_text (snd kv)) ps)
       ++ 125%N :: rest)
    = Parsed ps rest.
Proof.
  induction ps as [|[k e] ps IH]; [contradiction|]; intros _ Hall.
  inversion Hall as [|? ? [Hk He] Hl]; subst; simpl in Hk, He.
  destruct He as [t [c [t' [Hser [Ht [Hws [H93 Hparse]]]]]]].
  assert (Htext : element_text e = t)
    by (unfold element_text; rewrite Hser; reflexivity).
  destruct ps as [|kv2 ps].
  - destruct (Hparse (125%N :: rest) eq_refl) as [f Hf].
    exists (S f); rewrite parse_members_S; cbn [join map fst snd].
    rewrite Htext.
    replace ((quote k ++ 58%N :: t) ++ 125%N :: rest)
      with (quote k ++ 58%N :: t ++ 125%N :: rest)
      by (rewrite <- app_assoc; reflexivity).
    rewrite parse_key_quote by exact Hk.
    rewrite Hf; reflexivity.
  - destruct (IH ltac:(discriminate) Hl) as [f2 Hf2].
    set (more :=
           join [44%N]
             (map (fun kv => quote (fst kv) ++ 58%N :: element_text (snd kv))
                (kv2 :: ps)) ++ 125%N :: rest) in *.
    destruct (Hparse (44%N :: more) eq_refl) as [f1 Hf1].
    exists (S (Nat.max f1 f2)); rewrite parse_members_S.
    replace (join [44%N]
               (map (fun kv => quote (fst kv) ++ 58%N :: element_text (snd kv))
                  ((k, e) :: kv2 :: ps)) ++ 125%N :: rest)
      with (quote k ++ 58%N :: t ++ 44%N :: more)
      by (unfold more; cbn [join map fst snd]; rewrite Htext, <- !app_assoc;
          reflexivity).
    rewrite parse_key_quote by exact Hk.
    rewrite (@parse_value_fuel_le _ f1) by (try lia; rewrite Hf1; discriminate).
    rewrite Hf1; simpl skip_ws; simpl accept; cbv beta iota.
    rewrite (@parse_members_fuel_le f2) by (try lia; rewrite Hf2; discriminate).
    rewrite Hf2; reflexivity.
Qed.

Lemma number_head_tests (c : code_unit) :
  c = 45%N \/ is_digit c = true ->
  is_ws c = false /\ N.eqb c 123 = false /\ N.eqb c 91 = false /\
  N.eqb c DQUOTE = false /\ N.eqb c 116 = false /\ N.eqb c 102 = false /\
  N.eqb c 110 = false /\ N.eqb c 93 = false.
Proof.
  unfold is_digit, is_ws, DQUOTE; rewrite andb_true_iff, !N.leb_le.
  intros H; repeat split; rewrite ?orb_false_iff; repeat split;
    apply N.eqb_neq; lia.
Qed.

Lemma join_head (sep p : jsstring) (ps : list jsstring) (more : jsstring)
  (c : code_unit) (p' : jsstring) :
  p = c :: p' -> exists body, join sep (p :: ps) ++ more = c :: body.
Proof.
  intros ->; destruct ps; simpl; eauto.
Qed.

(** A value in canonical form is printed as a text, starting with neither
    white space nor a closing bracket, that is read back as the value. *)
Lemma canonical_reads_back (v : value) : canonical v -> reads_back v.
Proof.
  induction v as [| |b|x|s|l IH|ps IH] using value_induction; intros Hc.
  - contradiction.
  - exists (lit "null"), 110%N, (lit "ull").
    split; [reflexivity|]; split; [reflexivity|]; split; [reflexivity|].
    split; [reflexivity|]; intros rest _; exists 1; vm_compute; reflexivity.
  - destruct b.
    + exists (lit "true"), 116%N, (lit "rue").
      split; [reflexivity|]; split; [reflexivity|]; split; [reflexivity|].
      split; [reflexivity|]; intros rest _; exists 1; vm_compute; reflexivity.
    + exists (lit "false"), 102%N, (lit "alse").
      split; [reflexivity|]; split; [reflexivity|]; split; [reflexivity|].
      split; [reflexivity|]; intros rest _; exists 1; vm_compute; reflexivity.
  - destruct Hc as [Hfin [Hlex Hrt]].
    destruct (@lex_number_head _ _ Hlex) as [c [s' [Ht Hhead]]].
    destruct (@number_head_tests _ Hhead)
      as [Hws [H123 [H91 [H34 [H116 [H102 [H110 H93]]]]]]].
    exists (NumberToString x), c, s'.
    split; [simpl; rewrite Hfin; reflexivity|].
    split; [exact Ht|]; split; [exact Hws|]; split; [exact H93|].
    intros rest Hd; exists 1.
    rewrite parse_value_S, Ht; cbn [app skip_ws]; rewrite Hws, H123, H91.
    unfold parse_scalar; rewrite H34, H116, H102, H110.
    change (c :: s' ++ rest) with ((c :: s') ++ rest).
    rewrite <- Ht, (@lex_number_more _ _ Hlex Hd), Hrt; reflexivity.
  - exists (quote s), DQUOTE, (quote_units s ++ [DQUOTE]).
    split; [reflexivity|]; split; [reflexivity|]; split; [reflexivity|].
    split; [reflexivity|]; intros rest _; exists 1.
    unfold quote.
    replace ((DQUOTE :: quote_units s ++ [DQUOTE]) ++ rest)
      with (DQUOTE :: quote_units s ++ DQUOTE :: rest)
      by (simpl; rewrite <- app_assoc; reflexivity).
    change (parse_value 1 (DQUOTE :: quote_units s ++ DQUOTE :: rest))
      with (match parse_chars (quote_units s ++ DQUOTE :: rest) with
            | Some (t, r) => Parsed (VStr t) r
            | None => SyntaxError
            end).
    simpl in Hc; rewrite parse_chars_quote by exact Hc; reflexivity.
  - apply canonical_elements in Hc.
    assert (Hall : Forall reads_back l).
    { clear -IH Hc; induction l as [|e l IHl]; [constructor|].
      inversion IH; inversion Hc; subst; constructor; auto. }
    exists (91%N :: join [44%N] (map element_text l) ++ [93%N]), 91%N,
      (join [44%N] (map element_text l) ++ [93%N]).
    split; [reflexivity|]; split; [reflexivity|]; split; [reflexivity|].
    split; [reflexivity|]; intros rest _.
    cbn [app]; rewrite <- app_assoc; cbn [app].
    destruct l as [|e l]; [exists 1; reflexivity|].
    destruct (@parse_elements_join (e :: l) rest ltac:(discriminate) Hall)
      as [f Hf].
    exists (S f); rewrite parse_value_S.
    change (skip_ws (91%N :: ?b)) with (91%N :: b); cbv beta iota.
    change (N.eqb 91 123) with false; change (N.eqb 91 91) with true;
      cbv beta iota.
    inversion Hall as [|? ? He _]; subst.
    destruct He as [t [c [t' [Hser [Ht [Hws [H93 _]]]]]]].
    assert (Htext : element_text e = c :: t')
      by (unfold element_text; rewrite Hser; exact Ht).
    destruct (@join_head [44%N] (element_text e) (map element_text l)
                (93%N :: rest) c t' Htext) as [body Hbody].
    change (map element_text (e :: l))
      with (element_text e :: map element_text l) in *.
    rewrite Hbody in *; cbn [skip_ws]; rewrite Hws; cbn [accept].
    rewrite H93, Hf; reflexivity.
  - apply canonical_members in Hc; destruct Hc as [Ho Hc].
    assert (Hall : Forall (fun kv => all_units (fst kv) = true
                                     /\ reads_back (snd kv)) ps).
    { clear -IH Hc; induction ps as [|kv ps IHps]; [constructor|].
      inversion IH; inversion Hc; subst; constructor; [|auto].
      split; [tauto | apply H1; tauto]. }
    set (g := fun kv : jsstring * value =>
                quote (fst kv) ++ 58%N :: element_text (snd kv)).
    exists (123%N :: join [44%N] (map g ps) ++ [125%N]), 123%N,
      (join [44%N] (map g ps) ++ [125%N]).
    split.
    { change (serialize (VObj ps))
        with (Some (123%N :: join [44%N] (omit_none (map member_text ps))
                    ++ [125%N])).
      rewrite omit_none_members by exact Hall; reflexivity. }
    split; [reflexivity|]; split; [reflexivity|].
    split; [reflexivity|]; intros rest _.
    cbn [app]; rewrite <- app_assoc; cbn [app].
    destruct ps as [|kv ps]; [exists 1; reflexivity|].
    destruct (@parse_members_join (kv :: ps) rest ltac:(discriminate) Hall)
      as [f Hf].
    exists (S f); rewrite parse_value_S.
    change (skip_ws (123%N :: ?b)) with (123%N :: b); cbv beta iota.
    change (N.eqb 123 123) with true; cbv beta iota.
    assert (Hg : g kv = DQUOTE :: (quote_units (fst kv) ++ [DQUOTE])
                        ++ 58%N :: element_text (snd kv)) by reflexivity.
    destruct (@join_head [44%N] (g kv) (map g ps) (125%N :: rest) _ _ Hg)
      as [body Hbody].
    fold g in Hf.
    change (map g (kv :: ps)) with (g kv :: map g ps) in *.
    rewrite Hbody in *.
    change (accept 125%N (skip_ws (DQUOTE :: body))) with (@None jsstring).
    rewrite Hf, (@obj_define_all_in_order _ _ Ho); reflexivity.
Qed.

(** [JSON.parse] undoes [JSON.stringify] on values in canonical form. *)
Lemma parse_stringify (v : value) (t : jsstring) :
  canonical v -> stringify v = Some t -> parse t = Some v.
Proof.
  intros Hc Hs.
  destruct (canonical_reads_back v Hc) as [t0 [c [t' [Hser [_ [_ [_ Hparse]]]]]]].
  unfold stringify in Hs; rewrite Hs in Hser; injection Hser as <-.
  destruct (Hparse [] eq_refl) as [f Hf]; rewrite app_nil_r in Hf.
  apply parse_value_any_fuel in Hf.
  unfold parse, parse_text; rewrite Hf; reflexivity.
Qed.

End WithNumbers.
End RoundTrip.

(** ** The re-serialization step *)

(** C9, as the code has it.  A payload that is the text [JSON.stringify]
    prints for a value in canonical form is re-serialized byte for byte:
    parsing it gives the value back and printing the value gives the
    text. *)
Theorem reserialize_printed_text {NM : NumberModel} (v : value) (t : jsstring) :
  JSON.canonical v -> JSON.stringify v = Some t -> reserialize t = Some t.
Proof.
  intros Hc Hs; unfold reserialize.
  rewrite (RoundTrip.parse_stringify v Hc Hs), Hs; reflexivity.
Qed.

(** [{"id":1}] is re-serialized as it is. *)
Lemma reserialize_printed_text_witness :
  reserialize (NM := IntegerNumbers.model) Examples.id1 = Some Examples.id1.
Proof.
  apply (@reserialize_printed_text IntegerNumbers.model
           (VObj [(lit "id", VNum (NM := IntegerNumbers.model) 1%Z)])).
  - simpl; unfold JSON.number_canonical.
    split; [reflexivity|]; split; [reflexivity|]; split; [|exact I].
    split; [reflexivity|]; split; reflexivity.
  - reflexivity.
Defined.

(** C9 as stated fails: [{"id": 1}] is re-serialized as [{"id":1}], and
    ["\u0041"] as ["A"]; the bytes differ though the content is the
    same. *)
Lemma reserialize_changes_bytes :
  reserialize (NM := IntegerNumbers.model) Examples.id1_spaced
  = Some Examples.id1 /\
  Examples.id1 <> Examples.id1_spaced /\
  reserialize (NM := IntegerNumbers.model) Examples.escaped_A
  = Some Examples.plain_A /\
  Examples.plain_A <> Examples.escaped_A.
Proof.
  split; [reflexivity|]; split; [discriminate|].
  split; [reflexivity | discriminate].
Qed.

(** * Further properties of the code *)

(** ** The handler, path by path *)

Section HandlerBehaviour.

Context {NM : NumberModel}.

Variable upstream :
  jsstring -> jsstring -> list (jsstring * jsstring) -> option jsstring ->
  fetch_outcome.

Variable client : option nat.

Lemma respond_returns (tr : list event) (b : Body) (s : N)
  (h : list (jsstring * jsstring)) :
  own_status s = true ->
  respond tr b s h =
  {| trace := tr;
     answer := Returns {| status := s; headers := h; body := Some b |} |}.
Proof.
  unfold own_status; rewrite !orb_true_iff, !N.eqb_eq.
  intros [[[[-> | ->] | ->] | ->] | ->]; reflexivity.
Qed.

Lemma request_failed_returns (tr : list event) (e : error) :
  request_failed tr e =
  {| trace := tr ++ [request_diagnostic e];
     answer := Returns internal_error |}.
Proof. reflexivity. Qed.

(** [JSON.parse] never gives [undefined]. *)
Lemma json_defined (request : Request) : json request <> Some VUndefined.
Proof.
  intros H; destruct (JSONFacts.parse_defined _ H) as [t Ht]; discriminate.
Qed.

Lemma buildPayload_None (requestBody : value) :
  buildPayload requestBody = None <->
  requestBody = VNull \/ requestBody = VUndefined.
Proof.
  unfold buildPayload; destruct requestBody; simpl;
    split; try discriminate; try tauto; intros [H|H]; discriminate.
Qed.

(** X1.  A request body that is not JSON, with a credential configured: the
    handler logs the parse error and answers 400 with
    [Invalid request body]; the upstream is not called. *)
Theorem invalid_body_bad_request (request : Request) (env : Env) :
  falsy (OPENROUTER_API_KEY env) = false ->
  JSON.parse (request_text request) = None ->
  handleStream upstream client request env =
  {| trace := [ReadCredential; ReadRequestJson;
               ConsoleError [AText (lit "[owr error]");
                             AText (lit "Error parsing request body");
                             AError JSONSyntaxError]];
     answer := Returns {| status := 400; headers := [];
                          body := Some (text_body (lit "Invalid request body")) |} |}
  /\ upstream_calls (trace (handleStream upstream client request env)) = [].
Proof.
  intros Hk Hj; unfold handleStream, json; rewrite Hk, Hj.
  split; reflexivity.
Qed.

(** X2.  The handler throws in one case only: a POST with a credential
    whose body is the JSON value [null], which the destructuring of line 62
    cannot take apart; the error is a TypeError that no [catch] covers.  On
    every other input the handler returns a response. *)
Theorem throws_only_on_null_body (request : Request) (env : Env) (e : error) :
  answer (fetch upstream client request env) = Throws e <->
  method request = lit "POST" /\
  falsy (OPENROUTER_API_KEY env) = false /\
  json request = Some VNull /\ e = TypeError.
Proof.
  unfold fetch.
  destruct (eqb (method request) (lit "POST")) eqn:Hm; simpl negb; cbv iota.
  2: { split; [discriminate|].
       intros [H _]; apply eqb_eq in H; congruence. }
  apply eqb_eq in Hm.
  unfold handleStream.
  destruct (falsy (OPENROUTER_API_KEY env)) eqn:Hk.
  { split; [discriminate | intros [_ [H _]]; discriminate]. }
  destruct (json request) as [requestBody|] eqn:Hj.
  2: { split; [discriminate | intros [_ [_ [H _]]]; discriminate]. }
  destruct (buildPayload requestBody) as [payload|] eqn:Hp.
  - assert (Hnn : requestBody <> VNull).
    { intros ->; discriminate. }
    assert (Hret : forall r, answer r <> Throws e ->
                   (answer r = Throws e <->
                    method request = lit "POST" /\ false = false /\
                    Some requestBody = Some VNull /\ e = TypeError)).
    { intros r Hr; split; [contradiction|].
      intros [_ [_ [[= H] _]]]; contradiction. }
    apply Hret.
    destruct (upstream _ _ _ _) as [response|e'];
      [|rewrite request_failed_returns; discriminate].
    destruct (negb (ok response)).
    + destruct (text response) as [error_text|e'];
        [|rewrite request_failed_returns; discriminate].
      destruct (new_Response _ _ _);
        [|rewrite request_failed_returns]; discriminate.
    + destruct (body response) as [b|];
        [|rewrite request_failed_returns; discriminate].
      rewrite respond_returns by reflexivity; discriminate.
  - apply buildPayload_None in Hp; destruct Hp as [-> | ->].
    + simpl; split; [intros [= <-]; auto | intros [_ [_ [_ ->]]]; reflexivity].
    + exfalso; exact (json_defined _ Hj).
Qed.

(** X3.  On every input the handler calls the upstream at most once, and a
    call it makes is a POST to the fixed endpoint: no path retries, none
    calls anything else. *)
Theorem at_most_one_upstream_call (request : Request) (env : Env) :
  upstream_calls (trace (fetch upstream client request env)) = [] \/
  exists h b,
    upstream_calls (trace (fetch upstream client request env)) =
    [Fetch OPENROUTER_URL (lit "POST") h b].
Proof.
  unfold fetch.
  destruct (negb (eqb (method request) (lit "POST"))); [left; reflexivity|].
  destruct (falsy (OPENROUTER_API_KEY env)) eqn:Hk.
  { left; unfold handleStream; rewrite Hk; reflexivity. }
  destruct (json request) as [requestBody|] eqn:Hj.
  2: { left; unfold handleStream; rewrite Hk, Hj; reflexivity. }
  destruct (buildPayload requestBody) as [payload|] eqn:Hp.
  2: { left; unfold handleStream; rewrite Hk, Hj, Hp; reflexivity. }
  right; destruct (OPENROUTER_API_KEY env) as [[|c k]|] eqn:Hkey;
    try discriminate.
  eexists; eexists.
  apply (@handleStream_calls_once NM upstream client request env (c :: k)
           requestBody payload); auto; discriminate.
Qed.

(** X4.  The status of a response the handler returns is one the handler
    writes itself (200, 400, 401, 405, 500) or the status of an upstream
    response that was no success. *)
Theorem answer_status (request : Request) (env : Env) (r : Response) :
  answer (fetch upstream client request env) = Returns r ->
  own_status (status r) = true \/
  exists u m h b response,
    upstream u m h b = Resolves response /\ ok response = false /\
    status r = status response.
Proof.
  unfold fetch.
  destruct (negb (eqb (method request) (lit "POST")));
    [intros [= <-]; left; reflexivity|].
  unfold handleStream.
  destruct (falsy (OPENROUTER_API_KEY env));
    [intros [= <-]; left; reflexivity|].
  destruct (json request) as [requestBody|];
    [|intros [= <-]; left; reflexivity].
  destruct (buildPayload requestBody) as [payload|]; [|discriminate].
  destruct (upstream _ _ _ _) as [response|e'] eqn:Hup;
    [|intros [= <-]; left; reflexivity].
  destruct (negb (ok response)) eqn:Hok.
  - destruct (text response) as [error_text|e'];
      [|intros [= <-]; left; reflexivity].
    destruct (new_Response _ _ _) as [r'|e'] eqn:Hnew;
      [|intros [= <-]; left; reflexivity].
    intros [= <-]; right.
    apply negb_true_iff in Hok.
    unfold new_Response in Hnew.
    destruct (_ || _) in Hnew; [discriminate|].
    destruct (null_body_status _) in Hnew; [discriminate|].
    injection Hnew as <-; simpl; eauto 10.
  - destruct (body response); intros [= <-]; left; reflexivity.
Qed.

(** X5.  The credential reaches the [Authorization] header of the outbound
    call and nothing else: with another credential, and an upstream that
    answers alike, the handler returns the same response and leaves the
    same trace (logs included) but for that header. *)
Theorem credential_only_in_authorization (request : Request)
  (k1 k2 : jsstring) :
  k1 <> [] -> k2 <> [] ->
  (forall b, upstream OPENROUTER_URL (lit "POST") (upstream_headers k1 request) b
             = upstream OPENROUTER_URL (lit "POST") (upstream_headers k2 request) b) ->
  answer (handleStream upstream client request {| OPENROUTER_API_KEY := Some k1 |})
  = answer (handleStream upstream client request {| OPENROUTER_API_KEY := Some k2 |})
  /\
  map without_authorization
    (trace (handleStream upstream client request {| OPENROUTER_API_KEY := Some k1 |}))
  = map without_authorization
    (trace (handleStream upstream client request {| OPENROUTER_API_KEY := Some k2 |})).
Proof.
  intros H1 H2 Hup; unfold handleStream; simpl OPENROUTER_API_KEY.
  destruct k1 as [|c1 k1]; [contradiction|].
  destruct k2 as [|c2 k2]; [contradiction|].
  cbn [falsy ToString].
  destruct (json request) as [requestBody|]; [|split; reflexivity].
  destruct (buildPayload requestBody) as [payload|]; [|split; reflexivity].
  rewrite Hup.
  destruct (upstream _ _ _ _) as [response|e']; [|split; reflexivity].
  destruct (negb (ok response)).
  - destruct (text response) as [error_text|e']; [|split; reflexivity].
    destruct (new_Response _ _ _); split; reflexivity.
  - destruct (body response); [|split; reflexivity].
    unfold respond; simpl; split; reflexivity.
Qed.

(** X6.  A failure of the transport is answered 500 with the fixed text,
    never with a status of the upstream: when the call is rejected, when a
    response that is no success has a body that cannot be read, and when a
    successful response has no body.  The error is logged last and the
    upstream was called once. *)
Theorem transport_failure_internal_error (request : Request) (env : Env)
  (apiKey : jsstring) (requestBody : value) (payload : properties)
  (e : error) :
  OPENROUTER_API_KEY env = Some apiKey -> apiKey <> [] ->
  json request = Some requestBody ->
  buildPayload requestBody = Some payload ->
  upstream OPENROUTER_URL (lit "POST") (upstream_headers apiKey request)
    (JSON.stringify (VObj payload)) = Rejects e
  \/ (exists response,
        upstream OPENROUTER_URL (lit "POST") (upstream_headers apiKey request)
          (JSON.stringify (VObj payload)) = Resolves response /\
        (ok response = false /\ text response = inr e
         \/ ok response = true /\ body response = None
            /\ e = Error "No response body")) ->
  answer (handleStream upstream client request env) = Returns internal_error /\
  (exists tr, trace (handleStream upstream client request env)
              = tr ++ [ConsoleError
                         [AText (lit "[owr error]");
                          AText (lit "Error making request to OpenRouter");
                          AError e]]) /\
  upstream_calls (trace (handleStream upstream client request env)) =
  [Fetch OPENROUTER_URL (lit "POST") (upstream_headers apiKey request)
     (JSON.stringify (VObj payload))].
Proof.
  intros Hkey Hne Hjson Hpay Hfail.
  assert (Hrun : exists tr0, handleStream upstream client request env =
                             request_failed tr0 e).
  { unfold handleStream; rewrite Hkey.
    destruct apiKey as [|c k]; [contradiction|].
    cbn [falsy ToString]; rewrite Hjson, Hpay.
    destruct Hfail as [Hup | [response [Hup [[Hok Ht] | [Hok [Hb ->]]]]]];
      rewrite Hup, ?Hok, ?Ht, ?Hb; eexists; reflexivity. }
  destruct Hrun as [tr0 Hrun].
  rewrite request_failed_returns in Hrun.
  split; [rewrite Hrun; reflexivity|].
  split; [rewrite Hrun; eexists; reflexivity|].
  apply (@handleStream_calls_once NM upstream client request env
           apiKey requestBody payload); assumption.
Qed.


End HandlerBehaviour.

(** ** The copy task under failure, padding and chunking *)

Section CopyBehaviour.

Context {NM : NumberModel}.

(** X8.  The copy task does not see how the upstream cuts its text: two
    bodies with the same text and the same end give the same writes, the
    same diagnostics, the same final buffer and the same end of stream. *)
Theorem chunking_irrelevant (client : option nat) (cs cs' : list jsstring)
  (e : ending) :
  List.concat cs = List.concat cs' ->
  processStream client {| chunks := cs; end_of_body := e |} =
  processStream client {| chunks := cs'; end_of_body := e |}.
Proof.
  intros H; unfold processStream; simpl.
  rewrite !feed_initial, H; reflexivity.
Qed.

(** X9.  An upstream whose read fails with [e] after some chunks: what the
    complete lines gave has been written, their diagnostics are followed
    by [Error processing stream], and the outbound stream is aborted with
    [e], so the client sees the events and then the error. *)
Theorem read_failure_aborts (cs : list jsstring) (e : error) :
  processStream None {| chunks := cs; end_of_body := Failed e |} =
  {| buffer := snd (lines_of (List.concat cs));
     written := flat_map forwarded (fst (lines_of (List.concat cs)));
     console := flat_map diagnostics (fst (lines_of (List.concat cs)))
                ++ [ConsoleError [AText (lit "[owr error]");
                                  AText (lit "Error processing stream");
                                  AError e]];
     writer := Aborted e |}
  /\ readable (processStream None {| chunks := cs; end_of_body := Failed e |}) =
     {| chunks := flat_map forwarded (fst (lines_of (List.concat cs)));
        end_of_body := Failed e |}.
Proof.
  unfold processStream; simpl.
  rewrite feed_initial, run_lines_reading by reflexivity.
  split; reflexivity.
Qed.

Lemma forward_within (k : nat) (line : jsstring) (st : relay_state) :
  writer st = Open ->
  List.length (written st) + List.length (forwarded line) <= k ->
  forward (Some k) (trim line) st =
  {| buffer := buffer st;
     written := written st ++ forwarded line;
     console := console st ++ diagnostics line;
     writer := Open |}.
Proof.
  intros Hw; unfold forward, forwarded, diagnostics, is_malformed, data_of,
    reserialize.
  generalize (slice_from (trim line) 6); intros data.
  destruct (startsWith (trim line) (lit "data: ")).
  - destruct (eqb data (lit "[DONE]")); simpl.
    + intros _; rewrite !app_nil_r; destruct st; simpl in *; subst; reflexivity.
    + destruct (JSON.parse data); simpl.
      * intros Hk; unfold write, client_reads; rewrite Hw.
        replace (Nat.ltb (List.length (written st)) k) with true
          by (symmetry; apply Nat.ltb_lt; lia).
        rewrite app_nil_r; reflexivity.
      * intros _; unfold log; rewrite app_nil_r, Hw; reflexivity.
  - intros _; rewrite !app_nil_r; destruct st; simpl in *; subst; reflexivity.
Qed.

Lemma run_lines_within (k : nat) (ls : list jsstring) (st : relay_state) :
  writer st = Open ->
  List.length (written st) + List.length (flat_map forwarded ls) <= k ->
  run_lines (Some k) ls st =
  {| buffer := buffer st;
     written := written st ++ flat_map forwarded ls;
     console := console st ++ flat_map diagnostics ls;
     writer := Open |}.
Proof.
  unfold run_lines; revert st; induction ls as [|l ls IH]; intros st Hw Hk;
    simpl.
  - rewrite !app_nil_r; destruct st; simpl in *; subst; reflexivity.
  - simpl in Hk; rewrite length_app in Hk.
    rewrite forward_within by (auto; lia).
    rewrite IH by (simpl; rewrite ?length_app; auto; lia); simpl.
    rewrite <- !app_assoc; reflexivity.
Qed.

Lemma forward_unread (k : nat) (line : jsstring) (st : relay_state) :
  List.length (written st) = k ->
  writer st = Open \/ writer st = Errored client_gone ->
  forward (Some k) (trim line) st =
  {| buffer := buffer st;
     written := written st;
     console := console st ++ diagnostics_unread line;
     writer := match forwarded line with
               | [] => writer st
               | _ => Errored client_gone
               end |}.
Proof.
  intros Hk Hw; unfold forward, forwarded, diagnostics_unread, is_malformed,
    forwarded, data_of, reserialize.
  generalize (slice_from (trim line) 6); intros data.
  destruct (startsWith (trim line) (lit "data: ")).
  - destruct (eqb data (lit "[DONE]")); simpl.
    + rewrite !app_nil_r; destruct st; reflexivity.
    + destruct (JSON.parse data); simpl.
      * unfold write, client_reads; rewrite Hk, Nat.ltb_irrefl.
        destruct Hw as [Hw|Hw]; rewrite Hw; unfold log; simpl;
          rewrite ?Hw; reflexivity.
      * reflexivity.
  - rewrite !app_nil_r; destruct st; reflexivity.
Qed.

Lemma run_lines_unread (k : nat) (ls : list jsstring) (st : relay_state) :
  List.length (written st) = k ->
  writer st = Open \/ writer st = Errored client_gone ->
  run_lines (Some k) ls st =
  {| buffer := buffer st;
     written := written st;
     console := console st ++ flat_map diagnostics_unread ls;
     writer := match flat_map forwarded ls with
               | [] => writer st
               | _ => Errored client_gone
               end |}.
Proof.
  unfold run_lines; revert st; induction ls as [|l ls IH]; intros st Hk Hw;
    simpl.
  - rewrite !app_nil_r; destruct st; reflexivity.
  - rewrite forward_unread by assumption.
    rewrite IH; simpl; auto.
    + rewrite <- !app_assoc.
      destruct (forwarded l); simpl; [reflexivity|].
      destruct (flat_map forwarded ls); reflexivity.
    + destruct (forwarded l); auto.
Qed.

(** X10.  A client that takes the events of the lines [pre] and then
    cancels: those events are all that is written.  The rejected write of
    every later event is caught by the [catch] meant for parse errors and
    logged as [Error parsing SSE data] with the reason of the rejection;
    the loop goes on to the end of the upstream.  There
    [writer.close()] rejects with a TypeError, since the cancel has errored
    the writer, whether a later line had an event or not; the outer
    [catch] logs [Error processing stream] with that TypeError and calls
    [writer.abort] with it. *)
Theorem client_gone_logged_not_fatal (cs : list jsstring)
  (pre post : list jsstring) (rest : jsstring) :
  lines_of (List.concat cs) = (pre ++ post, rest) ->
  processStream (Some (List.length (flat_map forwarded pre)))
    {| chunks := cs; end_of_body := Done |} =
  {| buffer := rest;
     written := flat_map forwarded pre;
     console := flat_map diagnostics pre
                ++ flat_map diagnostics_unread post
                ++ [ConsoleError [AText (lit "[owr error]");
                                  AText (lit "Error processing stream");
                                  AError TypeError]];
     writer := Aborted TypeError |}.
Proof.
  intros Hlines; unfold processStream; simpl.
  rewrite feed_initial, Hlines; simpl fst; simpl snd.
  rewrite run_lines_app.
  rewrite (@run_lines_within _ pre initial) by (simpl; auto).
  rewrite run_lines_unread by (simpl; auto).
  unfold close; simpl writer; simpl written.
  destruct (flat_map forwarded post).
  - unfold client_reads; rewrite Nat.ltb_irrefl.
    unfold abort, log, set_writer; simpl; rewrite <- app_assoc; reflexivity.
  - unfold abort, log, set_writer; simpl; rewrite <- app_assoc; reflexivity.
Qed.

Lemma forward_silent (client : option nat) (line : jsstring) (st : relay_state) :
  is_silent line = true -> forward client (trim line) st = st.
Proof.
  unfold is_silent, data_of, forward.
  destruct (startsWith (trim line) (lit "data: ")); [|reflexivity].
  intros ->; reflexivity.
Qed.

Lemma run_lines_not_silent (client : option nat) (ls : list jsstring)
  (st : relay_state) :
  run_lines client (filter (fun l => negb (is_silent l)) ls) st =
  run_lines client ls st.
Proof.
  unfold run_lines; revert st; induction ls as [|l ls IH]; intros st; simpl;
    [reflexivity|].
  destruct (is_silent l) eqn:E; simpl.
  - rewrite forward_silent by exact E; apply IH.
  - apply IH.
Qed.

(** X11.  Lines that are no data lines (comments, other fields, blank
    lines, [data:] without the space) and sentinel lines leave no trace:
    the copy task ends in the same state on a stream and on the stream
    without them. *)
Theorem silent_lines_leave_no_trace (client : option nat)
  (lines : list jsstring) (e : ending) :
  Forall (fun l => ~ In LF l) lines ->
  processStream client {| chunks := [unlines lines]; end_of_body := e |} =
  processStream client
    {| chunks := [unlines (filter (fun l => negb (is_silent l)) lines)];
       end_of_body := e |}.
Proof.
  intros Hls; unfold processStream; simpl chunks; simpl end_of_body.
  rewrite !feed_initial; simpl List.concat; rewrite !app_nil_r.
  rewrite <- (app_nil_r (unlines lines)).
  rewrite <- (app_nil_r (unlines (filter _ lines))).
  rewrite !lines_of_unlines; simpl; try tauto; auto.
  - rewrite run_lines_not_silent; reflexivity.
  - apply Forall_forall; intros l Hl; apply filter_In in Hl.
    rewrite Forall_forall in Hls; apply Hls; tauto.
Qed.

Lemma trimStart_padding (a s : jsstring) :
  forallb is_trimmable a = true -> trimStart (a ++ s) = trimStart s.
Proof.
  induction a as [|c a IH]; simpl; [reflexivity|].
  intros H; apply andb_true_iff in H; destruct H as [Hc Ha].
  rewrite Hc; apply IH; exact Ha.
Qed.

Lemma trimEnd_padding (s b : jsstring) :
  forallb is_trimmable b = true -> trimEnd (s ++ b) = trimEnd s.
Proof.
  intros H; unfold trimEnd; rewrite rev_app_distr.
  rewrite trimStart_padding; [reflexivity|].
  rewrite forallb_forall in *; intros c Hc; apply H, in_rev; exact Hc.
Qed.

Lemma trimStart_all (b : jsstring) :
  forallb is_trimmable b = true -> trimStart b = [].
Proof.
  intros H; rewrite <- (app_nil_r b), trimStart_padding by exact H.
  reflexivity.
Qed.

(** [trim] strips padding of white space and line terminators on both
    sides. *)
Lemma trim_padding (a l b : jsstring) :
  forallb is_trimmable a = true -> forallb is_trimmable b = true ->
  trim (a ++ l ++ b) = trim l.
Proof.
  intros Ha Hb; unfold trim; rewrite trimStart_padding by exact Ha.
  clear a Ha; induction l as [|c l IH]; simpl.
  - rewrite trimStart_all by exact Hb; reflexivity.
  - destruct (is_trimmable c); [exact IH|].
    change (c :: l ++ b) with ((c :: l) ++ b).
    apply trimEnd_padding; exact Hb.
Qed.

Lemma run_lines_padding (client : option nat) (a b : jsstring)
  (ls : list jsstring) (st : relay_state) :
  forallb is_trimmable a = true -> forallb is_trimmable b = true ->
  run_lines client (map (fun l => a ++ l ++ b) ls) st = run_lines client ls st.
Proof.
  intros Ha Hb; unfold run_lines; revert st.
  induction ls as [|l ls IH]; intros st; simpl; [reflexivity|].
  rewrite trim_padding by assumption; apply IH.
Qed.

(** X12.  Padding around the lines does not matter: a stream whose lines
    all carry the same padding of white space before and after (a carriage
    return before each line feed, as with CRLF framing, or indentation) is
    relayed exactly as the stream of the bare lines. *)
Theorem padded_lines_relayed_alike (client : option nat) (a b : jsstring)
  (lines : list jsstring) (e : ending) :
  forallb is_trimmable a = true -> forallb is_trimmable b = true ->
  ~ In LF a -> ~ In LF b ->
  Forall (fun l => ~ In LF l) lines ->
  processStream client
    {| chunks := [unlines (map (fun l => a ++ l ++ b) lines)];
       end_of_body := e |} =
  processStream client {| chunks := [unlines lines]; end_of_body := e |}.
Proof.
  intros Ha Hb Hna Hnb Hls; unfold processStream; simpl chunks;
    simpl end_of_body.
  rewrite !feed_initial; simpl List.concat; rewrite !app_nil_r.
  rewrite <- (app_nil_r (unlines lines)).
  rewrite <- (app_nil_r (unlines (map _ lines))).
  rewrite !lines_of_unlines; simpl; try tauto; auto.
  - rewrite run_lines_padding by assumption; reflexivity.
  - apply Forall_forall; intros l Hl.
    apply in_map_iff in Hl; destruct Hl as [l0 [<- Hl0]].
    rewrite Forall_forall in Hls; specialize (Hls _ Hl0).
    rewrite !in_app_iff; tauto.
Qed.

(** X13.  After any number of chunks the buffer holds no line feed: it is
    the unfinished line, the text received since the last line feed, and
    the text received is the lines already handled followed by it. *)
Theorem buffer_is_unfinished_line (client : option nat) (cs : list jsstring) :
  ~ In LF (buffer (feed client cs initial)) /\
  exists lines,
    Forall (fun l => ~ In LF l) lines /\
    List.concat cs = unlines lines ++ buffer (feed client cs initial).
Proof.
  rewrite feed_initial; simpl buffer.
  split; [apply lines_of_rest_no_LF|].
  exists (fst (lines_of (List.concat cs))).
  split; [apply lines_of_lines_no_LF | apply lines_of_unlines_rest].
Qed.

(** X14.  What has been written and logged is never taken back, and what
    further chunks add is decided by the unfinished line in the buffer and
    the new text alone: for a client that reads, the output after the
    chunks [cs1 ++ cs2] is the output after [cs1] followed by the events of
    the lines that the buffer and the text of [cs2] complete, the console
    likewise with their diagnostics, the buffer is the new unfinished
    rest, and the stream is still open. *)
Theorem output_only_grows (cs1 cs2 : list jsstring) :
  feed None (cs1 ++ cs2) initial =
  {| buffer :=
       snd (lines_of (buffer (feed None cs1 initial) ++ List.concat cs2));
     written :=
       written (feed None cs1 initial)
       ++ flat_map forwarded
            (fst (lines_of (buffer (feed None cs1 initial) ++ List.concat cs2)));
     console :=
       console (feed None cs1 initial)
       ++ flat_map diagnostics
            (fst (lines_of (buffer (feed None cs1 initial) ++ List.concat cs2)));
     writer := Open |}.
Proof.
  unfold feed at 1; rewrite fold_left_app.
  change (fold_left (receive None) cs1 initial) with (feed None cs1 initial).
  change (fold_left (receive None) cs2 (feed None cs1 initial))
    with (feed None cs2 (feed None cs1 initial)).
  assert (Hopen : writer (feed None cs1 initial) = Open).
  { rewrite feed_initial, run_lines_reading by reflexivity; reflexivity. }
  assert (Hbuf : ~ In LF (buffer (feed None cs1 initial))).
  { rewrite feed_initial; simpl; apply lines_of_rest_no_LF. }
  rewrite (feed_lines None cs2 (feed None cs1 initial) Hbuf).
  rewrite run_lines_reading by exact Hopen; reflexivity.
Qed.

End CopyBehaviour.

(** ** The fields of the payload *)

Section PayloadBehaviour.

Context {NM : NumberModel}.

(** X15.  Every inbound field other than [model] and [messages] reaches the
    payload with its inbound value, [stream] included; a field the body
    does not have is not in the payload, but for [stream], which is then
    [true]. *)
Theorem other_fields_passed_through (requestBody : value) (ps : properties)
  (k : jsstring) :
  own_properties requestBody = Some ps ->
  NoDup (map fst ps) ->
  k <> lit "model" -> k <> lit "messages" ->
  exists payload,
    buildPayload requestBody = Some payload /\
    obj_get payload k =
    match obj_get ps k with
    | Some v => Some v
    | None => if eqb k (lit "stream") then Some (VBool true) else None
    end.
Proof.
  intros H Hnd Hmodel Hmessages; unfold buildPayload; rewrite H.
  eexists; split; [reflexivity|].
  rewrite obj_get_define_all by (apply restOfBody_NoDup; exact Hnd).
  rewrite obj_get_restOfBody.
  rewrite (eqb_neq Hmodel), (eqb_neq Hmessages); simpl orb.
  destruct (obj_get ps k); [reflexivity|].
  destruct (eqb k (lit "stream")) eqn:E.
  - apply eqb_eq in E; subst k; apply obj_get_define_same.
  - apply eqb_false_neq in E.
    rewrite !obj_get_define_other by assumption; reflexivity.
Qed.

(** X16.  The payload's [messages] is the inbound [messages] as it is,
    whatever its type, and [undefined] where the body has none; no inbound
    field takes its place. *)
Theorem messages_passed_verbatim (requestBody : value) (ps : properties) :
  own_properties requestBody = Some ps ->
  exists payload,
    buildPayload requestBody = Some payload /\
    obj_get payload (lit "messages") = Some (GetV ps (lit "messages")).
Proof.
  intros H; unfold buildPayload; rewrite H.
  eexists; split; [reflexivity|].
  rewrite obj_get_define_all_other
    by (rewrite obj_get_restOfBody; reflexivity).
  rewrite obj_get_define_other by exact (not_eq_sym stream_is_not_messages).
  apply obj_get_define_same.
Qed.

(** X17.  The payload always has a [model], decided by the kind of the
    inbound one: an absent, [undefined], [null], [false] or empty-string
    model, and a number that counts as false (zero, NaN), give way to the
    default; every other value ([true], a non-empty string, another
    number, an array, an object) is passed as it is.  So the payload's
    model is never one of the falsy values. *)
Theorem payload_model_truthy (requestBody : value) (ps : properties) :
  own_properties requestBody = Some ps ->
  exists payload m,
    buildPayload requestBody = Some payload /\
    obj_get payload (lit "model") = Some m /\
    m = match obj_get ps (lit "model") with
        | None | Some VUndefined | Some VNull | Some (VBool false)
        | Some (VStr []) => VStr MODEL
        | Some (VNum x) => if number_ToBoolean x then VNum x else VStr MODEL
        | Some v => v
        end /\
    m <> VUndefined /\ m <> VNull /\ m <> VBool false /\ m <> VStr [] /\
    (forall x, m = VNum x -> number_ToBoolean x = true).
Proof.
  intros H; destruct (buildPayload_model _ H) as [payload [Hp Hm]].
  exists payload, (js_or (GetV ps (lit "model")) (VStr MODEL)).
  split; [exact Hp|]; split; [exact Hm|].
  unfold js_or, GetV.
  destruct (obj_get ps (lit "model")) as [[| |[|]|x|[|c s]|l|l]|]; simpl;
    try (split; [reflexivity|]; repeat split; discriminate).
  destruct (number_ToBoolean x) eqn:E;
    (split; [reflexivity|]);
    (split; [discriminate|]); (split; [discriminate|]);
    (split; [discriminate|]); (split; [discriminate|]).
  - intros y [= <-]; exact E.
  - discriminate.
Qed.

(** X18.  A body without properties of its own (the empty object, a number,
    a boolean, the empty string, the empty array) is not refused: the
    payload is the default model with [stream: true], and its serialization
    leaves the undefined [messages] out. *)
Theorem empty_body_default_payload (requestBody : value) :
  own_properties requestBody = Some [] ->
  buildPayload requestBody = Some default_payload /\
  JSON.stringify (VObj default_payload) =
  Some (lit "{" ++ Examples.q "model" ++ lit ":"
        ++ Examples.q "google/gemini-2.0-pro-exp-02-05:free" ++ lit ","
        ++ Examples.q "stream" ++ lit ":true}").
Proof.
  intros H; unfold buildPayload; rewrite H; split; reflexivity.
Qed.

End PayloadBehaviour.

(** ** The further properties on inputs *)

Import Examples MoreExamples.

Lemma invalid_body_bad_request_witness :
  answer (handleStream (NM := IntegerNumbers.model) unreachable None
            (post (lit "not-json")) with_key) =
  Returns {| status := 400; headers := [];
             body := Some (text_body (lit "Invalid request body")) |}.
Proof.
  rewrite (proj1 (@invalid_body_bad_request IntegerNumbers.model unreachable
                    None (post (lit "not-json")) with_key eq_refl eq_refl)).
  reflexivity.
Defined.

Lemma answer_status_witness :
  own_status 429 = true \/
  exists u m h b response,
    answers rate_limited u m h b = Resolves response /\ ok response = false /\
    429%N = status response.
Proof.
  apply (@answer_status IntegerNumbers.model (answers rate_limited) None
           (post body_plain) with_key
           {| status := 429; headers := [];
              body := Some (text_body (lit "OpenRouter API error: "
                                       ++ q "rate limited")) |}).
  reflexivity.
Defined.

Lemma credential_only_in_authorization_witness :
  answer (handleStream (NM := IntegerNumbers.model) (answers streaming) None
            (post body_plain) {| OPENROUTER_API_KEY := Some (lit "sk-one") |})
  = answer (handleStream (NM := IntegerNumbers.model) (answers streaming) None
              (post body_plain) {| OPENROUTER_API_KEY := Some (lit "sk-two") |}).
Proof.
  apply (@credential_only_in_authorization IntegerNumbers.model
           (answers streaming) None (post body_plain)
           (lit "sk-one") (lit "sk-two")).
  - discriminate.
  - discriminate.
  - reflexivity.
Defined.

Lemma transport_failure_internal_error_witness :
  answer (handleStream (NM := IntegerNumbers.model) unreachable None
            (post body_plain) with_key) = Returns internal_error.
Proof.
  apply (@transport_failure_internal_error IntegerNumbers.model unreachable
           None (post body_plain) with_key (lit "sk-test")
           (VObj [(lit "messages", VArr [])])
           [(lit "model", VStr MODEL); (lit "messages", VArr []);
            (lit "stream", VBool true)]
           (TransportError 7)).
  - reflexivity.
  - discriminate.
  - reflexivity.
  - reflexivity.
  - left; reflexivity.
Defined.


Lemma chunking_irrelevant_witness :
  processStream (NM := IntegerNumbers.model) (Some 1)
    {| chunks := [sse_three]; end_of_body := Done |} =
  processStream (NM := IntegerNumbers.model) (Some 1)
    {| chunks := [lit "data: " ++ id1 ++ [LF];
                  [LF] ++ lit "data: [DO";
                  lit "NE]" ++ [LF; LF] ++ lit "data: " ++ id2 ++ [LF; LF]];
       end_of_body := Done |}.
Proof.
  apply (@chunking_irrelevant IntegerNumbers.model); reflexivity.
Defined.

(** The client takes the first event and cancels: the second event is not
    written, its rejected write is logged as a parse error after the real
    parse error, and closing fails with a TypeError at the end. *)
Lemma client_gone_logged_not_fatal_witness :
  processStream (NM := IntegerNumbers.model) (Some 1)
    {| chunks := [unlines four_lines]; end_of_body := Done |} =
  {| buffer := [];
     written := [lit "data: " ++ id1 ++ [LF; LF]];
     console := [ConsoleError [AText (lit "[owr error]");
                               AText (lit "Error parsing SSE data");
                               AError JSONSyntaxError];
                 ConsoleError [AText (lit "[owr error]");
                               AText (lit "Error parsing SSE data");
                               AError client_gone];
                 ConsoleError [AText (lit "[owr error]");
                               AText (lit "Error processing stream");
                               AError TypeError]];
     writer := Aborted TypeError |}.
Proof.
  apply (@client_gone_logged_not_fatal IntegerNumbers.model
           [unlines four_lines]
           [lit "data: " ++ id1]
           [lit ": keep-alive"; lit "data: not-json"; lit "data: " ++ id2]
           [] eq_refl).
Defined.

Lemma silent_lines_leave_no_trace_witness :
  processStream (NM := IntegerNumbers.model) None
    {| chunks := [unlines four_lines]; end_of_body := Done |} =
  processStream (NM := IntegerNumbers.model) None
    {| chunks := [unlines [lit "data: " ++ id1; lit "data: not-json";
                           lit "data: " ++ id2]];
       end_of_body := Done |}.
Proof.
  apply (@silent_lines_leave_no_trace IntegerNumbers.model None four_lines Done).
  repeat constructor; apply indexOf_None; reflexivity.
Defined.

(** CRLF framing. *)
Lemma padded_lines_relayed_alike_witness :
  processStream (NM := IntegerNumbers.model) None
    {| chunks := [unlines (map (fun l => [] ++ l ++ [CR]) four_lines)];
       end_of_body := Done |} =
  processStream (NM := IntegerNumbers.model) None
    {| chunks := [unlines four_lines]; end_of_body := Done |}.
Proof.
  apply (@padded_lines_relayed_alike IntegerNumbers.model None [] [CR]
           four_lines Done).
  - reflexivity.
  - reflexivity.
  - simpl; tauto.
  - apply indexOf_None; reflexivity.
  - repeat constructor; apply indexOf_None; reflexivity.
Defined.

Lemma other_fields_passed_through_witness :
  exists payload,
    buildPayload (VObj body_with_fields) = Some payload /\
    obj_get payload (lit "temperature") = Some (VNum (NM := IntegerNumbers.model) 1%Z).
Proof.
  destruct (@other_fields_passed_through IntegerNumbers.model
              (VObj body_with_fields) body_with_fields (lit "temperature")
              eq_refl) as [payload [Hp Hk]].
  - repeat constructor; simpl; intuition discriminate.
  - discriminate.
  - discriminate.
  - exists payload; split; [exact Hp | exact Hk].
Defined.

Lemma messages_passed_verbatim_witness :
  exists payload,
    buildPayload (VObj body_with_fields) = Some payload /\
    obj_get payload (lit "messages") = Some (VArr []).
Proof.
  apply (@messages_passed_verbatim IntegerNumbers.model
           (VObj body_with_fields) body_with_fields eq_refl).
Defined.

(** The model [0] gives way to the default. *)
Lemma payload_model_truthy_witness :
  exists payload,
    buildPayload (VObj [(lit "model", VNum (NM := IntegerNumbers.model) 0%Z)])
    = Some payload /\
    obj_get payload (lit "model") = Some (VStr MODEL).
Proof.
  destruct (@payload_model_truthy IntegerNumbers.model
              (VObj [(lit "model", VNum (NM := IntegerNumbers.model) 0%Z)])
              [(lit "model", VNum (NM := IntegerNumbers.model) 0%Z)] eq_refl)
    as [payload [m [Hp [Hm [E _]]]]].
  exists payload; split; [exact Hp | rewrite Hm, E; reflexivity].
Defined.

Lemma empty_body_default_payload_witness :
  buildPayload (NM := IntegerNumbers.model) (VNum (NM := IntegerNumbers.model) 5%Z)
  = Some default_payload.
Proof.
  apply (@empty_body_default_payload IntegerNumbers.model
           (VNum (NM := IntegerNumbers.model) 5%Z) eq_refl).
Defined.
